(** * Local ASR pipeline ([local_asr.py]): record, save, transcribe

    A shallow embedding of the functions of [local_asr.py] and the
    properties of the pipeline they form.

    - [Float32]   : the IEEE-754 binary32 arithmetic behind
                    [(audio_data * 32767).astype(np.int16)];
    - [PyStr]     : Python strings as far as [str.strip] and [+] need them;
    - [Asr]       : the functions of the script, written in a small
                    trace-and-exception monad over the outcomes of the
                    external calls (sounddevice, scipy, faster-whisper, torch),
                    and the stages of a run as read off its trace;
    - [Float32Facts], [PyStrFacts], [AsrFacts], [AsrMore] : their properties.
*)

From Stdlib Require Import ZArith NArith List Bool Lia QArith Qround Qabs.
From Stdlib Require Import Ascii String.
From Stdlib Require Import Floats.SpecFloat.
Import ListNotations.

Local Open Scope Z_scope.

(* ================================================================= *)
(** ** binary32 samples and their conversion to int16 *)

Module Float32.

(** numpy's [float32]: 24 bits of precision, infinities at exponent 128. *)
Definition prec : Z := 24.
Definition emax : Z := 128.

Definition float32 := spec_float.

Definition valid (x : float32) : bool := valid_binary prec emax x.

(** [x * y] on float32 operands, rounded to nearest even. *)
Definition mul (x y : float32) : float32 := SFmul prec emax x y.

Definition leb (x y : float32) : bool := SFleb x y.

(** An integer literal promoted to float32. *)
Definition of_Z (z : Z) : float32 := binary_normalize prec emax z 0 false.

(** The scalar [32767] of [audio_data * 32767], as a float32. *)
Definition c32767 : float32 := S754_finite false 16776704 (-9).

Definition one : float32 := S754_finite false 8388608 (-23).
Definition minus_one : float32 := S754_finite true 8388608 (-23).

(** [-1 <= a <= 1], the range of an amplitude in a recording. *)
Definition in_unit_range (a : float32) : bool :=
  leb minus_one a && leb a one.

(** A sample as the device delivers it: a float32 of [[-1, 1]]. *)
Definition amplitude_ok (a : float32) : bool := valid a && in_unit_range a.

(** The rational number a float32 stands for (0 for the non-finite). *)
Definition to_Q (x : float32) : Q :=
  match x with
  | S754_finite s m e =>
      if 0 <=? e
      then inject_Z (cond_Zopp s (Zpos m) * 2 ^ e)
      else Qmake (cond_Zopp s (Zpos m)) (Z.to_pos (2 ^ (- e)))
  | _ => 0%Q
  end.

(** Reduction into the int16 range, keeping the low 16 bits. *)
Definition wrap16 (z : Z) : Z := (z + 32768) mod 65536 - 32768.

(** The integer part of a finite float32: the mantissa shifted by the
    exponent (a right shift drops the fraction bits), then signed. *)
Definition int_part (s : bool) (m : positive) (e : Z) : Z :=
  cond_Zopp s (Z.shiftl (Zpos m) e).

(** [x.astype(np.int16)] for a float32 [x]: numpy runs the C conversion
    [(npy_short)x].  The fraction is discarded; the 32-bit conversion
    result keeps its low 16 bits.  A NaN, an infinity or a value that does
    not fit 32 bits gives, on x86-64, the "integer indefinite" value
    [0x80000000], whose low half is 0; the properties below stay within
    32 bits. *)
Definition astype_int16 (x : float32) : Z :=
  match x with
  | S754_finite s m e =>
      let t := int_part s m e in
      if (- 2 ^ 31 <=? t) && (t <? 2 ^ 31) then wrap16 t else 0
  | _ => 0
  end.

(** One element of [(audio_data * 32767).astype(np.int16)]. *)
Definition quantize (a : float32) : Z := astype_int16 (mul a c32767).

(** Some amplitudes: 0.375, 1.5 and 2^-15 + 2^-30. *)
Definition three_eighths : float32 := S754_finite false 12582912 (-25).
Definition one_and_half : float32 := S754_finite false 12582912 (-23).
Definition above_2m15 : float32 := S754_finite false 8388864 (-38).

End Float32.

(* ----------------------------------------------------------------- *)
(** *** The roundings the specification names *)

(** Truncation toward zero of a rational. *)
Definition Qtrunc (q : Q) : Z := Z.quot (Qnum q) (Zpos (Qden q)).

(** Python's [round]: to the nearest integer, a tie going to the even one. *)
Definition py_round (q : Q) : Z :=
  let f := Qfloor q in
  match Qcompare (q - inject_Z f) (1 # 2) with
  | Lt => f
  | Gt => f + 1
  | Eq => if Z.even f then f else f + 1
  end.

(* ================================================================= *)
(** ** Python strings *)

Module PyStr.

(** A [str] is a sequence of Unicode code points. *)
Definition str := list N.

Definition lit (s : string) : str := map N_of_ascii (list_ascii_of_string s).

Definition space : N := 32%N.
Definition slash : N := 47%N.

(** The code points [str.isspace] accepts, which [str.strip()] removes. *)
Definition isspace (c : N) : bool :=
  ((9 <=? c) && (c <=? 13) || (28 <=? c) && (c <=? 32)
   || (c =? 133) || (c =? 160) || (c =? 5760)
   || (8192 <=? c) && (c <=? 8202)
   || (c =? 8232) || (c =? 8233) || (c =? 8239) || (c =? 8287)
   || (c =? 12288))%N.

Fixpoint lstrip (s : str) : str :=
  match s with
  | c :: r => if isspace c then lstrip r else s
  | [] => []
  end.

Definition rstrip (s : str) : str := rev (lstrip (rev s)).

(** [s.strip()]: the left index moves first, then the right one. *)
Definition strip (s : str) : str := rstrip (lstrip s).

(** [sep.join(parts)]. *)
Fixpoint join (sep : str) (parts : list str) : str :=
  match parts with
  | [] => []
  | [p] => p
  | p :: rest => p ++ sep ++ join sep rest
  end.

Definition startswith_slash (s : str) : bool :=
  match s with
  | c :: _ => (c =? slash)%N
  | [] => false
  end.

Definition endswith_slash (s : str) : bool := startswith_slash (rev s).

(** [os.path.join(a, b)] on a POSIX system. *)
Definition path_join (a b : str) : str :=
  if startswith_slash b then b
  else if match a with [] => true | _ => endswith_slash a end then a ++ b
  else a ++ [slash] ++ b.

(** Truth value of a string in a condition. *)
Definition truthy (s : str) : bool :=
  match s with
  | [] => false
  | _ => true
  end.

End PyStr.


(* ================================================================= *)
(** ** The script *)

Module Asr.

Import Float32 PyStr.

(* ----------------------------------------------------------------- *)
(** *** Values *)

(** [--model] choices. *)
Inductive model_size := tiny | base | small | medium | large.

(** [device] and [compute_type] arguments of [WhisperModel]. *)
Inductive device := cuda | cpu.
Inductive compute_type := float16 | int8.

(** The namespace [parse_arguments] returns. *)
Record args := {
  duration : Z;
  model : model_size;
  sample_rate : Z;
  download_latest : bool
}.

(** A loaded [WhisperModel]. *)
Record whisper := {
  w_size : model_size;
  w_device : device;
  w_compute : compute_type
}.

(** Keyword arguments of [model.transcribe]. *)
Record decode_options := {
  beam_size : Z;
  word_timestamps : bool;
  vad_filter : bool;
  min_silence_duration_ms : Z
}.

(** A result segment; only its [text] is read. *)
Record segment := { text : str }.

(** Exceptions, by the classes the handlers of the script tell apart.
    [KeyboardInterrupt] and [SystemExit] derive from [BaseException] only;
    the other classes that do ([GeneratorExit] and the like) are left
    out, and nothing below is stated about them. *)
Inductive exc :=
| ImportError (msg : str)
| Error (msg : str)
| KeyboardInterrupt
| SystemExit (code : Z).

(** [isinstance(e, Exception)]. *)
Definition is_Exception (e : exc) : bool :=
  match e with
  | ImportError _ | Error _ => true
  | KeyboardInterrupt | SystemExit _ => false
  end.

Inductive result (A : Type) :=
| Ret (a : A)
| Raise (e : exc).
Arguments Ret {A} a.
Arguments Raise {A} e.

(** The segment generator [model.transcribe] returns: the segments it
    yields, and the exception that ends the iteration if one does. *)
Definition segments := (list segment * option exc)%type.

(* ----------------------------------------------------------------- *)
(** *** The world outside the script *)

(** The outcome of every call the script makes to a library or to the
    system, as a function of the call's arguments. *)
Record world := {
  parse_args : result args;
  path_exists : str -> result bool;
  makedirs : str -> result unit;
  import_torch : result unit;
  cuda_is_available : result bool;
  download_model : model_size -> result unit;
  whisper_model : model_size -> device -> compute_type -> result unit;
  rec_fault : Z -> Z -> option exc;
  mic : nat -> float32;
  time_sleep : Z -> result unit;
  sd_wait : result unit;
  datetime_now : str;
  write_wav : str -> Z -> list Z -> result unit;
  model_transcribe : whisper -> str -> decode_options -> result segments
}.

(* ----------------------------------------------------------------- *)
(** *** Observable behaviour *)

Inductive call :=
| ParseArgs
| PathExists (dir : str)
| Makedirs (dir : str)
| ImportTorch
| CudaIsAvailable
| DownloadModel (size : model_size)
| WhisperModel (size : model_size) (dev : device) (ct : compute_type)
| SdRec (frames samplerate channels : Z)
| TimeSleep (secs : Z)
| SdWait
| WriteWav (filename : str) (rate : Z) (data : list Z)
| ModelTranscribe (m : whisper) (audio_file : str) (opts : decode_options).

Inductive outcome :=
| Returned
| Raised (e : exc).

(** What each [print] of the script says. *)
Inductive message :=
| MsgTorchMissing
| MsgCudaAvailable
| MsgCudaUnavailable
| MsgCheckingLatest (size : model_size)
| MsgLatestReady
| MsgLoadingModel (size : model_size)
| MsgModelLoaded
| MsgErrLoading (e : exc)
| MsgDurationNotPositive
| MsgRecordingFor (d : Z)
| MsgSpeakNow
| MsgRemaining (r : Z)
| MsgRecordingComplete
| MsgErrRecording (e : exc)
| MsgAudioSaved (filename : str)
| MsgErrSaving (e : exc)
| MsgTranscribing
| MsgTranscriptionCompleted
| MsgErrTranscribing (e : exc)
| MsgFailedToSave
| MsgRule
| MsgResultHeader
| MsgTranscript (t : str)
| MsgInterrupted
| MsgUnexpected (e : exc).

Inductive event :=
| Print (m : message)
| Traceback
| Call (c : call) (o : outcome).

(* ----------------------------------------------------------------- *)
(** *** Computations: a trace and a value or a raised exception *)

Definition Py (A : Type) : Type := (list event * result A)%type.

Definition trace {A} (c : Py A) : list event := fst c.
Definition outcome_of {A} (c : Py A) : result A := snd c.

Definition ret {A} (a : A) : Py A := ([], Ret a).

Definition raise {A} (e : exc) : Py A := ([], Raise e).

Definition bind {A B} (c : Py A) (k : A -> Py B) : Py B :=
  match c with
  | (t, Ret a) => let (t', r) := k a in (t ++ t', r)
  | (t, Raise e) => (t, Raise e)
  end.

Declare Scope py_scope.
Delimit Scope py_scope with py.
Notation "x <- c ;; k" := (bind c (fun x => k))
  (at level 61, c at next level, right associativity) : py_scope.
Notation "c ;; k" := (bind c (fun _ => k))
  (at level 61, right associativity) : py_scope.
Local Open Scope py_scope.

Definition print (m : message) : Py unit := ([Print m], Ret tt).

Definition print_exc : Py unit := ([Traceback], Ret tt).

(** A call into a library: it is logged with its outcome. *)
Definition extern {A} (c : call) (r : result A) : Py A :=
  match r with
  | Ret a => ([Call c Returned], Ret a)
  | Raise e => ([Call c (Raised e)], Raise e)
  end.

(** [sys.exit(code)]. *)
Definition sys_exit {A} (code : Z) : Py A := raise (SystemExit code).

(** [try: body  except ...: handler]: [handler e] is [None] when no
    [except] clause matches [e], which then propagates. *)
Definition try_except {A} (body : Py A) (handler : exc -> option (Py A)) : Py A :=
  match body with
  | (t, Ret a) => (t, Ret a)
  | (t, Raise e) =>
      match handler e with
      | Some h => let (t', r) := h in (t ++ t', r)
      | None => (t, Raise e)
      end
  end.

(** [except Exception as e:]. *)
Definition except_Exception {A} (h : exc -> Py A) (e : exc) : option (Py A) :=
  if is_Exception e then Some (h e) else None.

(** The status the process ends with. *)
Definition exit_status {A} (r : result A) : Z :=
  match r with
  | Ret _ => 0
  | Raise (SystemExit code) => code
  | Raise _ => 1
  end.

(* ----------------------------------------------------------------- *)
(** *** The functions of [local_asr.py] *)

Section Script.

Variable w : world.

Definition is_cuda_available : Py bool :=
  try_except
    (extern ImportTorch (import_torch w) ;;
     extern CudaIsAvailable (cuda_is_available w))
    (fun e =>
       match e with
       | ImportError _ => Some (print MsgTorchMissing ;; ret false)
       | _ => None
       end).

Definition parse_arguments : Py args := extern ParseArgs (parse_args w).

Definition create_output_directory (base_dir : str) : Py str :=
  present <- extern (PathExists base_dir) (path_exists w base_dir) ;;
  (if negb present
   then extern (Makedirs base_dir) (makedirs w base_dir)
   else ret tt) ;;
  ret base_dir.

(** [sd.rec(frames, samplerate=..., channels=1, dtype=np.float32)]: the
    array it returns has [frames] rows, which the device fills. *)
Definition sd_rec (frames samplerate : Z) : result (list float32) :=
  if frames <? 0 then Raise (Error (lit "negative dimensions are not allowed"))
  else
    match rec_fault w frames samplerate with
    | Some e => Raise e
    | None => Ret (map (mic w) (seq 0 (Z.to_nat frames)))
    end.

(** [for remaining in range(duration, 0, -1)], from [remaining = n] down. *)
Fixpoint countdown (n : nat) : Py unit :=
  match n with
  | O => ret tt
  | S k =>
      print (MsgRemaining (Z.of_nat n)) ;;
      extern (TimeSleep 1) (time_sleep w (Z.of_nat n)) ;;
      countdown k
  end.

Definition record_audio (duration sample_rate : Z) : Py (list float32) :=
  (if duration <=? 0
   then print MsgDurationNotPositive ;; sys_exit 1
   else ret tt) ;;
  print (MsgRecordingFor duration) ;;
  print MsgSpeakNow ;;
  try_except
    (audio_data <- extern (SdRec (duration * sample_rate) sample_rate 1)
                          (sd_rec (duration * sample_rate) sample_rate) ;;
     countdown (Z.to_nat duration) ;;
     print MsgRecordingComplete ;;
     extern SdWait (sd_wait w) ;;
     ret audio_data)
    (except_Exception (fun e =>
       print (MsgErrRecording e) ;; print_exc ;; sys_exit 1)).

(** [(audio_data * 32767).astype(np.int16)]. *)
Definition audio_int16 (audio_data : list float32) : list Z :=
  map quantize audio_data.

Definition save_audio (audio_data : list float32) (sample_rate : Z)
    (output_dir : str) : Py (option str) :=
  let timestamp := datetime_now w in
  let filename :=
    path_join output_dir (lit "recording_" ++ timestamp ++ lit ".wav") in
  try_except
    (let data := audio_int16 audio_data in
     extern (WriteWav filename sample_rate data)
            (write_wav w filename sample_rate data) ;;
     print (MsgAudioSaved filename) ;;
     ret (Some filename))
    (except_Exception (fun e =>
       print (MsgErrSaving e) ;; print_exc ;; ret None)).

(** The device and precision [load_whisper_model] settles on first. *)
Definition select_device : Py (device * compute_type) :=
  available <- is_cuda_available ;;
  if available
  then print MsgCudaAvailable ;; ret (cuda, float16)
  else print MsgCudaUnavailable ;; ret (cpu, int8).

Definition load_whisper_model (model_size : model_size) (download_latest : bool)
    : Py whisper :=
  sel <- select_device ;;
  let (device, compute_type) := sel in
  try_except
    ((if download_latest
      then print (MsgCheckingLatest model_size) ;;
           extern (DownloadModel model_size) (download_model w model_size) ;;
           print MsgLatestReady
      else ret tt) ;;
     print (MsgLoadingModel model_size) ;;
     extern (WhisperModel model_size device compute_type)
            (whisper_model w model_size device compute_type) ;;
     print MsgModelLoaded ;;
     ret {| w_size := model_size; w_device := device; w_compute := compute_type |})
    (except_Exception (fun e =>
       print (MsgErrLoading e) ;; print_exc ;; sys_exit 1)).

Definition decoding : decode_options :=
  {| beam_size := 5;
     word_timestamps := true;
     vad_filter := true;
     min_silence_duration_ms := 500 |}.

(** [for segment in segments: transcript += segment.text + " "]. *)
Definition collect (segs : list segment) (transcript : str) : str :=
  fold_left (fun acc seg => acc ++ (text seg ++ lit " ")) segs transcript.

Definition consume (gen : segments) (transcript : str) : Py str :=
  match snd gen with
  | None => ret (collect (fst gen) transcript)
  | Some e => raise e
  end.

Definition transcription_failed : str :=
  lit "Transcription failed. Please check logs.".

(** The two reads of [time.time()] only feed the message that reports the
    elapsed time, and the [info] that comes with the segments is not read:
    neither is kept. *)
Definition transcribe_audio (model : whisper) (audio_file : str) : Py str :=
  try_except
    (print MsgTranscribing ;;
     gen <- extern (ModelTranscribe model audio_file decoding)
                   (model_transcribe w model audio_file decoding) ;;
     transcript <- consume gen [] ;;
     print MsgTranscriptionCompleted ;;
     ret (strip transcript))
    (except_Exception (fun e =>
       print (MsgErrTranscribing e) ;; print_exc ;; ret transcription_failed)).

(** Truth value of what [save_audio] returned. *)
Definition has_file (audio_file : option str) : bool :=
  match audio_file with
  | Some f => truthy f
  | None => false
  end.

(** The statements of [main] after [save_audio] returned. *)
Definition main_after_save (model : whisper) (audio_file : option str) : Py unit :=
  (if negb (has_file audio_file)
   then print MsgFailedToSave ;; sys_exit 1
   else ret tt) ;;
  transcript <- transcribe_audio model (match audio_file with
                                        | Some f => f
                                        | None => []
                                        end) ;;
  print MsgRule ;;
  print MsgResultHeader ;;
  print MsgRule ;;
  print (MsgTranscript transcript) ;;
  print MsgRule.

(** The [try] block of [main]. *)
Definition main_body : Py unit :=
  a <- parse_arguments ;;
  output_dir <- create_output_directory (lit "recordings") ;;
  model <- load_whisper_model (model a) (download_latest a) ;;
  audio_data <- record_audio (duration a) (sample_rate a) ;;
  audio_file <- save_audio audio_data (sample_rate a) output_dir ;;
  main_after_save model audio_file.

Definition main : Py unit :=
  try_except main_body
    (fun e =>
       match e with
       | KeyboardInterrupt => Some (print MsgInterrupted ;; sys_exit 0)
       | ImportError _ | Error _ =>
           Some (print (MsgUnexpected e) ;; print_exc ;; sys_exit 1)
       | SystemExit _ => None
       end).

End Script.

(* ----------------------------------------------------------------- *)
(** *** Stages of a run, read off its trace *)

Inductive stage :=
| SelectDevice
| LoadModel
| StartCapture
| AwaitCapture
| SaveWaveform
| Transcribe.

(** The order [main] goes through the stages. *)
Definition pipeline : list stage :=
  [SelectDevice; LoadModel; StartCapture; AwaitCapture; SaveWaveform; Transcribe].

Definition completed (o : outcome) : bool :=
  match o with
  | Returned => true
  | Raised _ => false
  end.

(** The stage an event belongs to, and whether the stage got through:
    the device is selected when the script announces it; the other stages
    are the library calls that carry them. *)
Definition mark (e : event) : option (stage * bool) :=
  match e with
  | Print MsgCudaAvailable | Print MsgCudaUnavailable => Some (SelectDevice, true)
  | Call (WhisperModel _ _ _) o => Some (LoadModel, completed o)
  | Call (SdRec _ _ _) o => Some (StartCapture, completed o)
  | Call SdWait o => Some (AwaitCapture, completed o)
  | Call (WriteWav _ _ _) o => Some (SaveWaveform, completed o)
  | Call (ModelTranscribe _ _ _) o => Some (Transcribe, completed o)
  | _ => None
  end.

Definition marks (t : list event) : list (stage * bool) :=
  flat_map (fun e => match mark e with Some m => [m] | None => [] end) t.

Definition is_transcribe (e : event) : bool :=
  match e with
  | Call (ModelTranscribe _ _ _) _ => true
  | _ => false
  end.

Definition is_device_call (e : event) : bool :=
  match e with
  | Call (SdRec _ _ _) _ | Call SdWait _ => true
  | _ => false
  end.

(** The events of the countdown loop. *)
Definition is_tick (e : event) : bool :=
  match e with
  | Print (MsgRemaining _) | Call (TimeSleep _) _ => true
  | _ => false
  end.

Definition stage_eqb (a b : stage) : bool :=
  match a, b with
  | SelectDevice, SelectDevice | LoadModel, LoadModel
  | StartCapture, StartCapture | AwaitCapture, AwaitCapture
  | SaveWaveform, SaveWaveform | Transcribe, Transcribe => true
  | _, _ => false
  end.

(** [ms] goes through [expected] from its start, in order, and only its
    last stage may have failed. *)
Fixpoint follows (expected : list stage) (ms : list (stage * bool)) {struct ms}
    : bool :=
  match ms, expected with
  | [], _ => true
  | (s, ok) :: rest, s' :: expected' =>
      stage_eqb s s' && (ok || match rest with [] => true | _ => false end)
      && follows expected' rest
  | _ :: _, [] => false
  end.

Definition all_done (full : list stage) : list (stage * bool) :=
  map (fun s => (s, true)) full.

(** A part of the run that goes through the stages [full]: it returns
    only when all of them are completed. *)
Definition staged {A} (full : list stage) (c : Py A) : Prop :=
  follows full (marks (trace c)) = true /\
  forall a, outcome_of c = Ret a -> marks (trace c) = all_done full.

(** The last part of a run: it returns only when all of [full] were
    entered. *)
Definition reaches {A} (full : list stage) (c : Py A) : Prop :=
  follows full (marks (trace c)) = true /\
  forall a, outcome_of c = Ret a -> map fst (marks (trace c)) = full.

(* ----------------------------------------------------------------- *)
(** *** The device probe and the selection the specification states *)

Inductive probe :=
| Available
| Unavailable
| Absent.

(** What the probe of [is_cuda_available] found, when it found anything:
    [Absent] is a failed [import torch]. *)
Definition probe_of (w : world) : option probe :=
  match import_torch w with
  | Ret _ =>
      match cuda_is_available w with
      | Ret true => Some Available
      | Ret false => Some Unavailable
      | Raise _ => None
      end
  | Raise (ImportError _) => Some Absent
  | Raise _ => None
  end.

(** The mapping of the specification's Device Selector. *)
Definition selection (p : probe) : device * compute_type :=
  match p with
  | Available => (cuda, float16)
  | Unavailable | Absent => (cpu, int8)
  end.


Definition is_call (e : event) : bool :=
  match e with
  | Call _ _ => true
  | _ => false
  end.

(* ----------------------------------------------------------------- *)
(** *** Some worlds *)

(** A machine without torch, a one-second recording of silence at 4 Hz,
    and an engine that hears two segments. *)
Definition quiet_world : world :=
  {| parse_args :=
       Ret {| duration := 1; model := base; sample_rate := 4;
              download_latest := false |};
     path_exists := fun _ => Ret true;
     makedirs := fun _ => Ret tt;
     import_torch := Raise (ImportError (lit "No module named torch"));
     cuda_is_available := Ret false;
     download_model := fun _ => Ret tt;
     whisper_model := fun _ _ _ => Ret tt;
     rec_fault := fun _ _ => None;
     mic := fun _ => S754_zero false;
     time_sleep := fun _ => Ret tt;
     sd_wait := Ret tt;
     datetime_now := lit "20240101_120000";
     write_wav := fun _ _ _ => Ret tt;
     model_transcribe := fun _ _ _ =>
       Ret ([ {| text := lit " hello" |}; {| text := lit " world" |} ], None) |}.

(** The same machine with a full disk. *)
Definition disk_full_world : world :=
  {| parse_args := parse_args quiet_world;
     path_exists := path_exists quiet_world;
     makedirs := makedirs quiet_world;
     import_torch := import_torch quiet_world;
     cuda_is_available := cuda_is_available quiet_world;
     download_model := download_model quiet_world;
     whisper_model := whisper_model quiet_world;
     rec_fault := rec_fault quiet_world;
     mic := mic quiet_world;
     time_sleep := time_sleep quiet_world;
     sd_wait := sd_wait quiet_world;
     datetime_now := datetime_now quiet_world;
     write_wav := fun _ _ _ => Raise (Error (lit "No space left on device"));
     model_transcribe := model_transcribe quiet_world |}.


(** The same machine, the engine failing on the file. *)
Definition broken_engine_world : world :=
  {| parse_args := parse_args quiet_world;
     path_exists := path_exists quiet_world;
     makedirs := makedirs quiet_world;
     import_torch := import_torch quiet_world;
     cuda_is_available := cuda_is_available quiet_world;
     download_model := download_model quiet_world;
     whisper_model := whisper_model quiet_world;
     rec_fault := rec_fault quiet_world;
     mic := mic quiet_world;
     time_sleep := time_sleep quiet_world;
     sd_wait := sd_wait quiet_world;
     datetime_now := datetime_now quiet_world;
     write_wav := write_wav quiet_world;
     model_transcribe := fun _ _ _ => Raise (Error (lit "Invalid data found")) |}.

Definition cpu_model : whisper :=
  {| w_size := base; w_device := cpu; w_compute := int8 |}.

Definition recording_path : str := lit "recordings/recording_20240101_120000.wav".

Definition quiet_args : args :=
  {| duration := 1; model := base; sample_rate := 4; download_latest := false |}.

Definition silence : list float32 :=
  [S754_zero false; S754_zero false; S754_zero false; S754_zero false].

(* ----------------------------------------------------------------- *)
(** *** Where exceptions go *)

Definition is_write (e : event) : bool :=
  match e with
  | Call (WriteWav _ _ _) _ => true
  | _ => false
  end.

Definition is_load (e : event) : bool :=
  match e with
  | Call (WhisperModel _ _ _) _ => true
  | _ => false
  end.

(** An exception outside [Exception] that a library call raises ends the
    computation: nothing in it catches it. *)
Definition propagates {A} (c : Py A) : Prop :=
  forall call e,
    is_Exception e = false ->
    In (Call call (Raised e)) (trace c) -> outcome_of c = Raise e.

(** A handler like those of the functions below [main]: it takes
    exceptions of class [Exception] only, and calls no library. *)
Definition quiet_handler {A} (h : exc -> option (Py A)) : Prop :=
  forall e k,
    h e = Some k ->
    is_Exception e = true /\ existsb is_call (trace k) = false /\
    forall e', outcome_of k = Raise e' -> e' = SystemExit 1.

(** The segment generator of some transcription ends with [e]. *)
Definition generator_raises (w : world) (e : exc) : Prop :=
  exists m f segs, model_transcribe w m f decoding = Ret (segs, Some e).

(** Whatever [c] raises is the script's own [sys.exit(1)] or comes from
    a library: a call in the trace, or the segment generator. *)
Definition accounted {A} (w : world) (c : Py A) : Prop :=
  forall e,
    outcome_of c = Raise e ->
    e = SystemExit 1 \/
    (exists call, In (Call call (Raised e)) (trace c)) \/
    generator_raises w e.

(** A machine whose model store cannot be reached, asked to refresh. *)
Definition store_down_world : world :=
  {| parse_args :=
       Ret {| duration := 1; model := small; sample_rate := 4;
              download_latest := true |};
     path_exists := path_exists quiet_world;
     makedirs := makedirs quiet_world;
     import_torch := import_torch quiet_world;
     cuda_is_available := cuda_is_available quiet_world;
     download_model := fun _ => Raise (Error (lit "Connection refused"));
     whisper_model := whisper_model quiet_world;
     rec_fault := rec_fault quiet_world;
     mic := mic quiet_world;
     time_sleep := time_sleep quiet_world;
     sd_wait := sd_wait quiet_world;
     datetime_now := datetime_now quiet_world;
     write_wav := write_wav quiet_world;
     model_transcribe := model_transcribe quiet_world |}.

(** A machine without an input device. *)
Definition no_microphone_world : world :=
  {| parse_args := parse_args quiet_world;
     path_exists := path_exists quiet_world;
     makedirs := makedirs quiet_world;
     import_torch := import_torch quiet_world;
     cuda_is_available := cuda_is_available quiet_world;
     download_model := download_model quiet_world;
     whisper_model := whisper_model quiet_world;
     rec_fault := fun _ _ => Some (Error (lit "Error querying device -1"));
     mic := mic quiet_world;
     time_sleep := time_sleep quiet_world;
     sd_wait := sd_wait quiet_world;
     datetime_now := datetime_now quiet_world;
     write_wav := write_wav quiet_world;
     model_transcribe := model_transcribe quiet_world |}.

(** The same clock one second later. *)
Definition next_second_world : world :=
  {| parse_args := parse_args quiet_world;
     path_exists := path_exists quiet_world;
     makedirs := makedirs quiet_world;
     import_torch := import_torch quiet_world;
     cuda_is_available := cuda_is_available quiet_world;
     download_model := download_model quiet_world;
     whisper_model := whisper_model quiet_world;
     rec_fault := rec_fault quiet_world;
     mic := mic quiet_world;
     time_sleep := time_sleep quiet_world;
     sd_wait := sd_wait quiet_world;
     datetime_now := lit "20240101_120001";
     write_wav := write_wav quiet_world;
     model_transcribe := model_transcribe quiet_world |}.

Definition is_download (e : event) : bool :=
  match e with
  | Call (DownloadModel _) _ => true
  | _ => false
  end.

(** A command line [argparse] refuses: it prints the usage and exits
    with status 2. *)
Definition bad_arguments_world : world :=
  {| parse_args := Raise (SystemExit 2);
     path_exists := path_exists quiet_world;
     makedirs := makedirs quiet_world;
     import_torch := import_torch quiet_world;
     cuda_is_available := cuda_is_available quiet_world;
     download_model := download_model quiet_world;
     whisper_model := whisper_model quiet_world;
     rec_fault := rec_fault quiet_world;
     mic := mic quiet_world;
     time_sleep := time_sleep quiet_world;
     sd_wait := sd_wait quiet_world;
     datetime_now := datetime_now quiet_world;
     write_wav := write_wav quiet_world;
     model_transcribe := model_transcribe quiet_world |}.

(** A machine whose torch imports but whose CUDA driver query fails. *)
Definition broken_driver_world : world :=
  {| parse_args := parse_args quiet_world;
     path_exists := path_exists quiet_world;
     makedirs := makedirs quiet_world;
     import_torch := Ret tt;
     cuda_is_available := Raise (Error (lit "CUDA driver initialization failed"));
     download_model := download_model quiet_world;
     whisper_model := whisper_model quiet_world;
     rec_fault := rec_fault quiet_world;
     mic := mic quiet_world;
     time_sleep := time_sleep quiet_world;
     sd_wait := sd_wait quiet_world;
     datetime_now := datetime_now quiet_world;
     write_wav := write_wav quiet_world;
     model_transcribe := model_transcribe quiet_world |}.

(** A machine whose torch imports, the query then failing on an import
    of its own. *)
Definition partial_torch_world : world :=
  {| parse_args := parse_args quiet_world;
     path_exists := path_exists quiet_world;
     makedirs := makedirs quiet_world;
     import_torch := Ret tt;
     cuda_is_available := Raise (ImportError (lit "No module named torch._C"));
     download_model := download_model quiet_world;
     whisper_model := whisper_model quiet_world;
     rec_fault := rec_fault quiet_world;
     mic := mic quiet_world;
     time_sleep := time_sleep quiet_world;
     sd_wait := sd_wait quiet_world;
     datetime_now := datetime_now quiet_world;
     write_wav := write_wav quiet_world;
     model_transcribe := model_transcribe quiet_world |}.

End Asr.

(* ================================================================= *)
(** * Properties *)

(* ================================================================= *)
(** ** binary32: shifting, rounding and the scaled product *)

Module Float32Facts.

Import Float32.

(** The literals of the script, promoted to float32. *)
Example c32767_literal : of_Z 32767 = c32767.
Proof. reflexivity. Qed.

Example unit_literals : of_Z 1 = one /\ of_Z (-1) = minus_one.
Proof. split; reflexivity. Qed.

(** [digits2_pos] counts the bits of a mantissa. *)
Lemma digits2_pos_bounds (p : positive) :
  2 ^ (Zpos (digits2_pos p) - 1) <= Zpos p < 2 ^ Zpos (digits2_pos p).
Proof.
  induction p as [p IH | p IH | ]; cbn [digits2_pos].
  - rewrite Pos2Z.inj_succ.
    replace (Z.succ (Zpos (digits2_pos p)) - 1) with (Z.succ (Zpos (digits2_pos p) - 1)) by lia.
    rewrite !Z.pow_succ_r by lia. lia.
  - rewrite Pos2Z.inj_succ.
    replace (Z.succ (Zpos (digits2_pos p)) - 1) with (Z.succ (Zpos (digits2_pos p) - 1)) by lia.
    rewrite !Z.pow_succ_r by lia. lia.
  - cbn. lia.
Qed.

Lemma Zdigits2_le (x n : Z) : 0 <= n -> 0 <= x < 2 ^ n -> Zdigits2 x <= n.
Proof.
  intros Hn [Hx Hlt]. destruct x as [ | p | p ]; cbn [Zdigits2]; try lia.
  destruct (digits2_pos_bounds p) as [Hlo _].
  destruct (Z_le_gt_dec (Zpos (digits2_pos p)) n) as [ | Hgt ]; [ assumption | exfalso ].
  assert (2 ^ n <= 2 ^ (Zpos (digits2_pos p) - 1)) by (apply Z.pow_le_mono_r; lia).
  lia.
Qed.

(** A right shift by [n] bits divides the mantissa by [2 ^ n]. *)
Lemma shr_1_m (r : shr_record) : 0 <= shr_m r -> shr_m (shr_1 r) = shr_m r / 2.
Proof.
  destruct r as [m r s]; cbn [shr_m]; intros Hm.
  destruct m as [ | [ p | p | ] | p ]; cbn [shr_1 shr_m]; try lia.
  all: Z.to_euclidean_division_equations; lia.
Qed.

Lemma iter_shr_1_m (p : positive) :
  forall r, 0 <= shr_m r -> shr_m (iter_pos shr_1 p r) = shr_m r / 2 ^ Zpos p.
Proof.
  assert (Hnn : forall r, 0 <= shr_m r -> 0 <= shr_m (shr_1 r)).
  { intros r Hr. rewrite shr_1_m by assumption. apply Z.div_pos; lia. }
  induction p as [p IH | p IH | ]; intros r Hr; cbn [iter_pos].
  - assert (H1 : 0 <= shr_m (shr_1 r)) by auto.
    assert (H2 : 0 <= shr_m (iter_pos shr_1 p (shr_1 r))).
    { rewrite IH by assumption. apply Z.div_pos; lia. }
    rewrite IH, IH, shr_1_m by assumption.
    rewrite !Z.div_div by lia.
    f_equal. replace (Zpos p~1) with (1 + Zpos p + Zpos p) by lia.
    rewrite !Z.pow_add_r by lia. lia.
  - assert (H2 : 0 <= shr_m (iter_pos shr_1 p r)).
    { rewrite IH by assumption. apply Z.div_pos; lia. }
    rewrite IH, IH by assumption.
    rewrite !Z.div_div by lia.
    f_equal. replace (Zpos p~0) with (Zpos p + Zpos p) by lia.
    rewrite !Z.pow_add_r by lia. lia.
  - rewrite shr_1_m by assumption. reflexivity.
Qed.

Lemma shr_spec (r : shr_record) (e n : Z) :
  0 <= shr_m r ->
  shr_m (fst (shr r e n)) = shr_m r / 2 ^ Z.max 0 n /\
  snd (shr r e n) = e + Z.max 0 n.
Proof.
  intros Hr. destruct n as [ | p | p ]; cbn [shr fst snd].
  - rewrite Z.max_id. cbn. rewrite Z.div_1_r. lia.
  - rewrite iter_shr_1_m by assumption.
    replace (Z.max 0 (Zpos p)) with (Zpos p) by lia. lia.
  - replace (Z.max 0 (Zneg p)) with 0 by lia. cbn. rewrite Z.div_1_r. lia.
Qed.

Lemma round_nearest_even_bounds (m : Z) (l : location) :
  m <= round_nearest_even m l <= m + 1.
Proof.
  destruct l as [ | [ | | ] ]; cbn [round_nearest_even]; try lia.
  destruct (Z.even m); lia.
Qed.

Lemma shr_record_of_loc_m (m : Z) (l : location) : shr_m (shr_record_of_loc m l) = m.
Proof. destruct l as [ | [ | | ] ]; reflexivity. Qed.

(** The shape of a rounded exact product: the mantissa is cut to
    [m / 2 ^ k1], moved up by at most one, and cut once more if the move
    made it one bit too long. *)
Lemma binary_round_aux_exact (sx : bool) (p : positive) (ex : Z) :
  let k1 := Z.max 0 (fexp prec emax (Zdigits2 (Zpos p) + ex) - ex) in
  let e1 := ex + k1 in
  exists m1,
    Zpos p / 2 ^ k1 <= m1 <= Zpos p / 2 ^ k1 + 1 /\
    let k2 := Z.max 0 (fexp prec emax (Zdigits2 m1 + e1) - e1) in
    (binary_round_aux prec emax sx (Zpos p) ex loc_Exact = S754_zero sx \/
     binary_round_aux prec emax sx (Zpos p) ex loc_Exact = S754_infinity sx \/
     exists m2,
       binary_round_aux prec emax sx (Zpos p) ex loc_Exact
         = S754_finite sx m2 (e1 + k2) /\
       Zpos m2 = m1 / 2 ^ k2).
Proof.
  intros k1 e1. unfold binary_round_aux, shr_fexp.
  set (n1 := fexp prec emax (Zdigits2 (Zpos p) + ex) - ex) in *.
  destruct (shr_spec (shr_record_of_loc (Zpos p) loc_Exact) ex n1) as [Hm1 He1];
    [ cbn; lia | ].
  destruct (shr (shr_record_of_loc (Zpos p) loc_Exact) ex n1) as [mrs1 e1'].
  cbn [fst snd shr_record_of_loc shr_m] in Hm1, He1.
  fold k1 in Hm1, He1. fold e1 in He1. subst e1'.
  set (m1 := round_nearest_even (shr_m mrs1) (loc_of_shr_record mrs1)).
  assert (Hb : shr_m mrs1 <= m1 <= shr_m mrs1 + 1) by apply round_nearest_even_bounds.
  assert (Hq : 0 <= Zpos p / 2 ^ k1) by (apply Z.div_pos; lia).
  exists m1. split; [ lia | ].
  set (n2 := fexp prec emax (Zdigits2 m1 + e1) - e1).
  destruct (shr_spec (shr_record_of_loc m1 loc_Exact) e1 n2) as [Hm2 He2];
    [ cbn; lia | ].
  destruct (shr (shr_record_of_loc m1 loc_Exact) e1 n2) as [mrs2 e2].
  cbn [fst snd shr_record_of_loc shr_m] in Hm2, He2. subst e2.
  cbv zeta.
  destruct (shr_m mrs2) as [ | m2 | m2 ] eqn:E2.
  - left; reflexivity.
  - destruct (e1 + Z.max 0 n2 <=? emax - prec).
    + right; right. exists m2. split; [ reflexivity | exact Hm2 ].
    + right; left; reflexivity.
  - exfalso. assert (0 <= m1 / 2 ^ Z.max 0 n2) by (apply Z.div_pos; lia). lia.
Qed.

Lemma Qtrunc_inject_Z (z : Z) : Qtrunc (inject_Z z) = z.
Proof. unfold Qtrunc; cbn. apply Z.quot_1_r. Qed.

(** The shifted mantissa is the value truncated toward zero. *)
Lemma int_part_Qtrunc (s : bool) (m : positive) (e : Z) :
  int_part s m e = Qtrunc (to_Q (S754_finite s m e)).
Proof.
  unfold int_part, to_Q. destruct (Z.leb_spec 0 e) as [He | He].
  - rewrite Qtrunc_inject_Z, Z.shiftl_mul_pow2 by assumption.
    destruct s; cbn [cond_Zopp]; lia.
  - unfold Qtrunc; cbn [Qnum Qden].
    assert (Hp : 0 < 2 ^ (- e)) by (apply Z.pow_pos_nonneg; lia).
    rewrite Z2Pos.id by assumption.
    replace e with (- (- e)) at 1 by lia.
    rewrite Z.shiftl_opp_r, Z.shiftr_div_pow2 by lia.
    destruct s; cbn [cond_Zopp].
    + change (Z.neg m) with (- Zpos m). rewrite Z.quot_opp_l by lia.
      rewrite Z.quot_div_nonneg by lia. reflexivity.
    + rewrite Z.quot_div_nonneg by lia. reflexivity.
Qed.

Lemma wrap16_small (z : Z) : -32768 <= z <= 32767 -> wrap16 z = z.
Proof. intros H. unfold wrap16. rewrite Z.mod_small by lia. lia. Qed.

Lemma astype_int16_wraps (x : float32) :
  - 2 ^ 31 <= Qtrunc (to_Q x) < 2 ^ 31 ->
  astype_int16 x = wrap16 (Qtrunc (to_Q x)).
Proof.
  intros H. destruct x as [ s | s | | s m e ]; try reflexivity.
  rewrite <- int_part_Qtrunc in *. cbn [astype_int16]. cbv zeta.
  destruct (Z.leb_spec (- 2 ^ 31) (int_part s m e)); [ | lia ].
  destruct (Z.ltb_spec (int_part s m e) (2 ^ 31)); [ | lia ].
  reflexivity.
Qed.

Lemma astype_int16_in_range (x : float32) :
  -32768 <= Qtrunc (to_Q x) <= 32767 ->
  astype_int16 x = Qtrunc (to_Q x).
Proof.
  intros H. rewrite astype_int16_wraps by lia. apply wrap16_small; assumption.
Qed.

(** A valid amplitude in [[-1, 1]] is [m * 2 ^ e] with [m <= 2 ^ (- e)]. *)
Lemma unit_range_finite (s : bool) (m : positive) (e : Z) :
  valid (S754_finite s m e) = true ->
  in_unit_range (S754_finite s m e) = true ->
  e <= -23 /\ Zpos m <= 2 ^ (- e).
Proof.
  unfold valid, valid_binary, bounded, canonical_mantissa, fexp, emin, prec, emax.
  intros Hv Hu. apply andb_prop in Hv as [Hc _]. apply Z.eqb_eq in Hc.
  destruct (digits2_pos_bounds m) as [_ Hd].
  assert (Hd24 : Zpos (digits2_pos m) <= 24) by lia.
  assert (Hm24 : Zpos m < 2 ^ 24).
  { eapply Z.lt_le_trans; [ exact Hd | ]. apply Z.pow_le_mono_r; lia. }
  assert (Hcmp : e < -23 \/ e = -23 /\ Zpos m <= 8388608).
  { unfold in_unit_range, leb, SFleb, minus_one, one in Hu.
    apply andb_prop in Hu as [Hlo Hhi].
    destruct s; cbn [SFcompare] in Hlo, Hhi.
    - destruct (Z.compare_spec (-23) e) as [ He | He | He ]; try discriminate; [ | lia ].
      right. split; [ lia | ].
      rewrite Pos.compare_cont_spec in Hlo. unfold Pos.switch_Eq in Hlo.
      destruct (Pos.compare_spec 8388608 m); cbn [CompOpp] in Hlo;
        try discriminate; lia.
    - destruct (Z.compare_spec e (-23)) as [ He | He | He ]; try discriminate; [ | lia ].
      right. split; [ lia | ].
      rewrite Pos.compare_cont_spec in Hhi. unfold Pos.switch_Eq in Hhi.
      destruct (Pos.compare_spec m 8388608); try discriminate; lia. }
  destruct Hcmp as [ He | [He Hm] ].
  - split; [ lia | ].
    assert (2 ^ 24 <= 2 ^ (- e)) by (apply Z.pow_le_mono_r; lia). lia.
  - subst e. split; [ lia | ]. change (2 ^ (- -23)) with 8388608. exact Hm.
Qed.

(** Scaling an amplitude of [[-1, 1]] stays within [[-32767, 32767]]. *)
Lemma mul_c32767_unit_range (a : float32) :
  valid a = true -> in_unit_range a = true ->
  -32767 <= Qtrunc (to_Q (mul a c32767)) <= 32767.
Proof.
  intros Hv Hu. destruct a as [ s | s | | s m e ].
  - cbn. lia.
  - destruct s; discriminate Hu.
  - discriminate Hu.
  - destruct (unit_range_finite s m e Hv Hu) as [He Hm].
    unfold mul, c32767. cbn [SFmul].
    destruct (binary_round_aux_exact (xorb s false) (m * 16776704) (e + -9))
      as [m1 [Hm1 Hres]].
    unfold fexp, emin in Hm1, Hres. unfold prec, emax in *.
    change (3 - 128 - 24) with (-149) in Hm1, Hres.
    change (Zpos (m * 16776704)) with (Zpos m * 16776704) in *.
    set (M := Zpos m * 16776704) in *.
    set (ex := e + -9) in *.
    set (k1 := Z.max 0 (Z.max (Zdigits2 M + ex - 24) (-149) - ex)) in *.
    set (e1 := ex + k1) in *.
    set (k2 := Z.max 0 (Z.max (Zdigits2 m1 + e1 - 24) (-149) - e1)) in *.
    assert (Hpe : 0 < 2 ^ (- e)) by (apply Z.pow_pos_nonneg; lia).
    assert (Hex : 2 ^ (- ex) = 512 * 2 ^ (- e)).
    { unfold ex. replace (- (e + -9)) with (9 + - e) by lia.
      rewrite Z.pow_add_r by lia. reflexivity. }
    assert (HM : 0 < M <= 32767 * 2 ^ (- ex)) by (unfold M; lia).
    assert (HMlt : M < 2 ^ (15 - ex)).
    { replace (15 - ex) with (15 + - ex) by lia. rewrite Z.pow_add_r by lia.
      change (2 ^ 15) with 32768. lia. }
    assert (HdM : Zdigits2 M <= 15 - ex) by (apply Zdigits2_le; lia).
    assert (He1 : ex <= e1 <= -9) by lia.
    assert (HD1 : 512 <= 2 ^ (- e1)).
    { change 512 with (2 ^ 9). apply Z.pow_le_mono_r; lia. }
    assert (Hsplit : 2 ^ (- ex) = 2 ^ k1 * 2 ^ (- e1)).
    { rewrite <- Z.pow_add_r by lia. f_equal. lia. }
    assert (Hk1 : 0 < 2 ^ k1) by (apply Z.pow_pos_nonneg; lia).
    assert (Hq : 0 <= M / 2 ^ k1 <= 32767 * 2 ^ (- e1)).
    { split; [ apply Z.div_pos; lia | ].
      apply Z.div_le_upper_bound; [ assumption | ]. nia. }
    assert (Hm1lt : 0 <= m1 < 2 ^ (15 - e1)).
    { replace (15 - e1) with (15 + - e1) by lia. rewrite Z.pow_add_r by lia.
      change (2 ^ 15) with 32768. lia. }
    assert (Hdm1 : Zdigits2 m1 <= 15 - e1) by (apply Zdigits2_le; lia).
    assert (He2 : e1 <= e1 + k2 <= -9) by lia.
    destruct Hres as [ -> | [ -> | [m2 [-> Hm2]] ] ]; try (cbn; lia).
    rewrite <- int_part_Qtrunc. unfold int_part.
    replace (e1 + k2) with (- (- (e1 + k2))) by lia.
    rewrite Z.shiftl_opp_r, Z.shiftr_div_pow2 by lia.
    rewrite Hm2, Z.div_div, <- Z.pow_add_r by (try apply Z.pow_pos_nonneg; lia).
    replace (k2 + - (e1 + k2)) with (- e1) by lia.
    assert (Ht : 0 <= m1 / 2 ^ (- e1) < 32768).
    { split; [ apply Z.div_pos; lia | ].
      apply Z.div_lt_upper_bound; lia. }
    destruct (xorb s false); cbn [cond_Zopp]; lia.
Qed.

(** Truncation toward zero never grows the magnitude and drops less
    than one. *)
Lemma Qtrunc_bounds (q : Q) :
  (Qabs (inject_Z (Qtrunc q)) <= Qabs q)%Q /\
  (Qabs (q - inject_Z (Qtrunc q)) < 1)%Q.
Proof.
  destruct q as [n d]. unfold Qtrunc. cbn [Qnum Qden].
  set (z := Z.quot n (Zpos d)).
  assert (Hn : n = Zpos d * z + Z.rem n (Zpos d)) by (apply Z.quot_rem'; lia).
  assert (Hr : Z.abs (Z.rem n (Zpos d)) < Zpos d).
  { pose proof (Z.rem_bound_abs n (Zpos d)). lia. }
  assert (Hz : Z.abs z * Zpos d <= Z.abs n).
  { unfold z. rewrite <- (Z.quot_abs n (Zpos d)) by lia.
    change (Z.abs (Zpos d)) with (Zpos d).
    rewrite Z.quot_div_nonneg by lia.
    rewrite Z.mul_comm. apply Z.mul_div_le. lia. }
  split.
  - unfold Qle, Qabs, inject_Z. cbn [Qnum Qden]. lia.
  - unfold Qlt, Qabs, Qminus, Qplus, Qopp, inject_Z. cbn [Qnum Qden].
    replace (n * 1 + - z * Zpos d) with (Z.rem n (Zpos d)) by lia.
    rewrite Pos.mul_1_r. lia.
Qed.

End Float32Facts.

(* ================================================================= *)
(** ** Strings: stripping a trailing space *)

Module PyStrFacts.

Import PyStr.

Lemma lstrip_all_space (s : str) : forallb isspace s = true -> lstrip s = [].
Proof.
  induction s as [ | c s IH ]; [ reflexivity | ].
  cbn [forallb lstrip]. intros H. apply andb_prop in H as [Hc Hs].
  rewrite Hc. auto.
Qed.

Lemma lstrip_app_space (s : str) :
  lstrip (s ++ [space]) = if forallb isspace s then [] else lstrip s ++ [space].
Proof.
  induction s as [ | c s IH ]; [ reflexivity | ].
  cbn [app lstrip forallb]. destruct (isspace c); [ exact IH | reflexivity ].
Qed.

Lemma rstrip_app_space (s : str) : rstrip (s ++ [space]) = rstrip s.
Proof. unfold rstrip. rewrite rev_app_distr. reflexivity. Qed.

(** The space the loop puts after the last segment is stripped. *)
Lemma strip_app_space (s : str) : strip (s ++ [space]) = strip s.
Proof.
  unfold strip. rewrite lstrip_app_space.
  destruct (forallb isspace s) eqn:E.
  - now rewrite lstrip_all_space.
  - apply rstrip_app_space.
Qed.

End PyStrFacts.

(* ================================================================= *)
(** ** The script *)

Module AsrFacts.

Import Float32 PyStr Asr Float32Facts PyStrFacts.
Local Open Scope py_scope.

(* ----------------------------------------------------------------- *)
(** *** Sequencing and traces *)

Lemma bind_Raise {A B} (c : Py A) (k : A -> Py B) (t : list event) (e : exc) :
  c = (t, Raise e) -> bind c k = (t, Raise e).
Proof. intros ->. reflexivity. Qed.

Lemma bind_Ret {A B} (c : Py A) (k : A -> Py B) (t : list event) (a : A) :
  c = (t, Ret a) ->
  bind c k = (t ++ trace (k a), outcome_of (k a)).
Proof. intros ->. cbn. now destruct (k a). Qed.

Lemma run_eq {A} (c : Py A) (a : A) :
  outcome_of c = Ret a -> c = (trace c, Ret a).
Proof. destruct c as [t r]. cbn. now intros ->. Qed.

Lemma in_trace_bind {A B} (c : Py A) (k : A -> Py B) (e : event) :
  In e (trace (bind c k)) <->
  In e (trace c) \/ exists a, outcome_of c = Ret a /\ In e (trace (k a)).
Proof.
  destruct c as [t [a | x]].
  - rewrite (bind_Ret _ _ _ _ eq_refl). cbn [trace outcome_of fst snd].
    rewrite in_app_iff. split; intros [H | H]; auto.
    + right. now exists a.
    + destruct H as [a' [Ha Hin]]. injection Ha as ->. now right.
  - cbn. split; [ auto | intros [H | [a [Ha _]]]; [ exact H | discriminate ] ].
Qed.

Lemma not_existsb_in (p : event -> bool) (t : list event) (e : event) :
  existsb p t = false -> In e t -> p e = true -> False.
Proof.
  intros Hn Hin Hp. assert (existsb p t = true) by (apply existsb_exists; eauto).
  congruence.
Qed.

(* ----------------------------------------------------------------- *)
(** *** Stage marks *)

Lemma stage_eqb_eq (a b : stage) : stage_eqb a b = true -> a = b.
Proof. destruct a, b; cbn; congruence. Qed.

Lemma marks_app (t1 t2 : list event) : marks (t1 ++ t2) = marks t1 ++ marks t2.
Proof. apply flat_map_app. Qed.

Lemma mark_in_marks (t : list event) (e : event) (m : stage * bool) :
  In e t -> mark e = Some m -> In m (marks t).
Proof.
  intros Hin Hm. unfold marks. apply in_flat_map. exists e.
  split; [ exact Hin | ]. rewrite Hm. now left.
Qed.

(** Where a stage is entered, the stages before it in [expected] are
    behind, all completed. *)
Lemma follows_split (l1 : list (stage * bool)) :
  forall expected ms s ok l2,
    follows expected ms = true -> ms = l1 ++ (s, ok) :: l2 ->
    (exists rest, expected = map fst l1 ++ s :: rest) /\
    Forall (fun m => snd m = true) l1.
Proof.
  induction l1 as [ | [s1 ok1] l1 IH ]; intros expected ms s ok l2 H ->.
  - destruct expected as [ | s' expected' ]; [ discriminate | ].
    cbn in H. apply andb_prop in H as [H _]. apply andb_prop in H as [Hs _].
    apply stage_eqb_eq in Hs. subst s'. split; [ now exists expected' | constructor ].
  - destruct expected as [ | s' expected' ]; [ discriminate | ].
    cbn [app follows] in H. apply andb_prop in H as [H Hrest].
    apply andb_prop in H as [Hs Hok]. apply stage_eqb_eq in Hs. subst s'.
    destruct (IH _ _ _ _ _ Hrest eq_refl) as [[rest Hr] Hall]. split.
    + exists rest. cbn. now rewrite Hr.
    + constructor; [ | exact Hall ]. cbn.
      destruct l1; cbn in Hok; now rewrite orb_false_r in Hok.
Qed.

Lemma follows_all_done_app (full1 full2 : list stage) (ms : list (stage * bool)) :
  follows full2 ms = true ->
  follows (full1 ++ full2) (all_done full1 ++ ms) = true.
Proof.
  intros H. induction full1 as [ | s full1 IH ]; [ exact H | ].
  change (follows (s :: (full1 ++ full2)) ((s, true) :: (all_done full1 ++ ms)) = true).
  cbn [follows]. rewrite IH. destruct s; reflexivity.
Qed.

Lemma follows_app_nil (full1 full2 : list stage) (ms : list (stage * bool)) :
  follows full1 ms = true -> follows (full1 ++ full2) ms = true.
Proof.
  revert ms. induction full1 as [ | s full1 IH ]; intros ms H.
  - destruct ms as [ | [] ]; [ reflexivity | discriminate ].
  - destruct ms as [ | [s0 ok] ms ]; [ reflexivity | ].
    cbn in *. apply andb_prop in H as [H1 H2]. rewrite H1. cbn. auto.
Qed.

Lemma reaches_bind {A B} (full1 full2 : list stage) (c : Py A) (k : A -> Py B) :
  staged full1 c -> (forall a, reaches full2 (k a)) ->
  reaches (full1 ++ full2) (bind c k).
Proof.
  intros [Hf Hret] Hk. destruct c as [t [a | e]] eqn:Ec.
  - rewrite (bind_Ret _ _ _ _ eq_refl). unfold reaches. cbn [trace outcome_of fst snd] in *.
    destruct (Hk a) as [Hkf Hkr]. rewrite marks_app, (Hret a eq_refl). split.
    + now apply follows_all_done_app.
    + intros b Hb. rewrite map_app, (Hkr b Hb). f_equal.
      unfold all_done. rewrite map_map. cbn. apply map_id.
  - cbn. split; cbn [trace outcome_of fst snd] in *.
    + now apply follows_app_nil.
    + discriminate.
Qed.

(** In a part of the run that is staged over [full], no event of a stage
    outside [full] occurs. *)
Lemma staged_absent {A} (full : list stage) (c : Py A) (p : event -> bool) :
  staged full c ->
  (forall e, p e = true -> exists s ok, mark e = Some (s, ok) /\ ~ In s full) ->
  existsb p (trace c) = false.
Proof.
  intros [Hf _] Hp. destruct (existsb p (trace c)) eqn:E; [ | reflexivity ].
  exfalso. apply existsb_exists in E as [e [Hin He]].
  destruct (Hp e He) as [s [ok [Hm Hn]]].
  apply (mark_in_marks _ _ _ Hin) in Hm.
  apply in_split in Hm as [l1 [l2 Hs]].
  destruct (follows_split l1 _ _ _ _ _ Hf Hs) as [[rest Hr] _].
  apply Hn. rewrite Hr. apply in_or_app. right. now left.
Qed.

Lemma device_call_marked (full : list stage) :
  ~ In StartCapture full -> ~ In AwaitCapture full ->
  forall e, is_device_call e = true ->
  exists s ok, mark e = Some (s, ok) /\ ~ In s full.
Proof.
  intros H1 H2 e. destruct e as [ | | [] o ]; try discriminate; intros _.
  - exists StartCapture, (completed o). now split.
  - exists AwaitCapture, (completed o). now split.
Qed.

Lemma transcribe_call_marked (full : list stage) :
  ~ In Transcribe full ->
  forall e, is_transcribe e = true ->
  exists s ok, mark e = Some (s, ok) /\ ~ In s full.
Proof.
  intros H e. destruct e as [ | | [] o ]; try discriminate; intros _.
  exists Transcribe, (completed o). now split.
Qed.
(* ----------------------------------------------------------------- *)
(** *** The functions, one by one *)

Lemma parse_arguments_staged (w : world) : staged [] (parse_arguments w).
Proof.
  unfold staged, parse_arguments, extern.
  destruct (parse_args w); cbn; split; try reflexivity; discriminate.
Qed.

Lemma create_output_directory_staged (w : world) (d : str) :
  staged [] (create_output_directory w d).
Proof.
  unfold staged, create_output_directory, extern, bind, ret.
  destruct (path_exists w d) as [ [ | ] | e ]; cbn;
    [ | destruct (makedirs w d) as [ [] | e ]; cbn | ];
    split; try reflexivity; discriminate.
Qed.

Lemma load_whisper_model_staged (w : world) (sz : model_size) (dl : bool) :
  staged [SelectDevice; LoadModel] (load_whisper_model w sz dl).
Proof.
  unfold staged, load_whisper_model, select_device, is_cuda_available.
  unfold try_except, except_Exception, extern, bind, print, print_exc, sys_exit,
    raise, ret.
  destruct (import_torch w) as [ [] | [ | | | ] ];
    [ destruct (cuda_is_available w) as [ [ | ] | [ | | | ] ] | .. ];
    cbn; try (split; [ reflexivity | discriminate ]).
  all: destruct dl;
    [ destruct (download_model w sz) as [ [] | [ | | | ] ] | ]; cbn;
    try (split; [ reflexivity | discriminate ]).
  all: match goal with
       | |- context [whisper_model ?w0 ?s0 ?d ?c] =>
           destruct (whisper_model w0 s0 d c) as [ [] | [ | | | ] ]
       end; cbn; split; try reflexivity; try discriminate.
Qed.

Lemma record_audio_nonpositive (w : world) (d sr : Z) :
  d <= 0 ->
  record_audio w d sr = ([Print MsgDurationNotPositive], Raise (SystemExit 1)).
Proof.
  intros Hd. unfold record_audio.
  destruct (Z.leb_spec d 0) as [ _ | H ]; [ reflexivity | lia ].
Qed.

Lemma countdown_ticks (w : world) (n : nat) :
  forallb is_tick (trace (countdown w n)) = true.
Proof.
  induction n as [ | k IH ]; [ reflexivity | ].
  cbn [countdown]. unfold bind at 1. cbn [print].
  unfold bind at 1.
  destruct (time_sleep w (Z.of_nat (S k))) as [ [] | e ]; cbn [extern].
  - destruct (countdown w k) as [tk rk]. cbn in *. exact IH.
  - reflexivity.
Qed.

Lemma ticks_marks (t : list event) : forallb is_tick t = true -> marks t = [].
Proof.
  induction t as [ | e t IH ]; [ reflexivity | ].
  cbn [forallb]. intros H. apply andb_prop in H as [He Ht].
  change (marks (e :: t))
    with ((match mark e with Some m => [m] | None => [] end) ++ marks t).
  rewrite (IH Ht).
  destruct e as [ [] | | [] o ]; try discriminate; reflexivity.
Qed.

Lemma countdown_cases (w : world) (n : nat) :
  exists t r, countdown w n = (t, r) /\ marks t = [].
Proof.
  pose proof (ticks_marks _ (countdown_ticks w n)) as H.
  destruct (countdown w n) as [t r]. exists t, r. split; [ reflexivity | exact H ].
Qed.

Lemma countdown_returns (w : world) (n : nat) :
  (forall r, time_sleep w r = Ret tt) ->
  outcome_of (countdown w n) = Ret tt.
Proof.
  intros Hs. induction n as [ | k IH ]; [ reflexivity | ].
  cbn [countdown]. unfold bind at 1. cbn [print]. unfold bind at 1.
  rewrite Hs. cbn [extern]. destruct (countdown w k) as [tk rk]. cbn in *.
  exact IH.
Qed.

Lemma sd_rec_length (w : world) (frames sr : Z) (audio : list float32) :
  sd_rec w frames sr = Ret audio -> Z.of_nat (List.length audio) = frames.
Proof.
  unfold sd_rec. destruct (Z.ltb_spec frames 0) as [ | Hf ]; [ discriminate | ].
  destruct (rec_fault w frames sr); [ discriminate | ].
  intros E. injection E as <-. rewrite length_map, length_seq. lia.
Qed.

Lemma record_audio_staged (w : world) (d sr : Z) :
  staged [StartCapture; AwaitCapture] (record_audio w d sr).
Proof.
  destruct (Z.leb_spec d 0) as [Hd | Hd].
  - rewrite record_audio_nonpositive by assumption.
    split; [ reflexivity | discriminate ].
  - unfold staged, record_audio.
    destruct (Z.leb_spec d 0) as [ | _ ]; [ lia | ].
    destruct (countdown_cases w (Z.to_nat d)) as [tc [rc [Ec Hc]]]. rewrite Ec.
    unfold try_except, except_Exception, extern, bind, print, print_exc, sys_exit,
      raise, ret.
    destruct (sd_rec w (d * sr) sr) as [ audio | [ | | | ] ]; cbn;
      try (split; [ reflexivity | discriminate ]).
    destruct rc as [ [] | [ | | | ] ]; cbn;
      [ destruct (sd_wait w) as [ [] | [ | | | ] ]; cbn | .. ];
      unfold marks in Hc |- *; cbn; rewrite ?flat_map_app, ?Hc; cbn;
      split; try reflexivity; try discriminate.
Qed.

(** What [save_audio] does, by the outcome of [write_wav]. *)
Lemma save_audio_cases (w : world) (audio : list float32) (sr : Z) (dir : str) :
  let filename :=
    path_join dir (lit "recording_" ++ datetime_now w ++ lit ".wav") in
  let data := audio_int16 audio in
  match write_wav w filename sr data with
  | Ret _ =>
      save_audio w audio sr dir
      = ([Call (WriteWav filename sr data) Returned; Print (MsgAudioSaved filename)],
         Ret (Some filename))
  | Raise e =>
      if is_Exception e
      then save_audio w audio sr dir
           = ([Call (WriteWav filename sr data) (Raised e);
               Print (MsgErrSaving e); Traceback], Ret None)
      else save_audio w audio sr dir
           = ([Call (WriteWav filename sr data) (Raised e)], Raise e)
  end.
Proof.
  intros filename data. unfold save_audio. fold filename. fold data.
  unfold try_except, except_Exception, extern, bind, print, print_exc, ret.
  destruct (write_wav w filename sr data) as [ [] | [ | | | ] ]; reflexivity.
Qed.

Lemma save_audio_no_transcribe (w : world) (audio : list float32) (sr : Z)
    (dir : str) :
  existsb is_transcribe (trace (save_audio w audio sr dir)) = false.
Proof.
  pose proof (save_audio_cases w audio sr dir) as H. cbv zeta in H.
  destruct (write_wav w _ sr _) as [ [] | e ]; [ | destruct (is_Exception e) ];
    rewrite H; reflexivity.
Qed.

Lemma save_audio_returns_written (w : world) (audio : list float32) (sr : Z)
    (dir f : str) :
  outcome_of (save_audio w audio sr dir) = Ret (Some f) ->
  In (Call (WriteWav f sr (audio_int16 audio)) Returned)
     (trace (save_audio w audio sr dir)).
Proof.
  pose proof (save_audio_cases w audio sr dir) as H. cbv zeta in H.
  destruct (write_wav w _ sr _) as [ [] | e ]; [ | destruct (is_Exception e) ];
    rewrite H; cbn; intros E; try discriminate.
  injection E as <-. now left.
Qed.

(** The samples [save_audio] hands to [write_wav]. *)
Lemma save_audio_written (w : world) (audio : list float32) (sr : Z) (dir : str)
    (f : str) (rate : Z) (data : list Z) (o : outcome) :
  In (Call (WriteWav f rate data) o) (trace (save_audio w audio sr dir)) ->
  rate = sr /\ data = audio_int16 audio.
Proof.
  pose proof (save_audio_cases w audio sr dir) as H. cbv zeta in H.
  destruct (write_wav w _ sr _) as [ [] | e ]; [ | destruct (is_Exception e) ];
    rewrite H; cbn; intros Hin;
    repeat (destruct Hin as [ E | Hin ];
            [ try discriminate E; inversion E; subst; now split | ]);
    contradiction.
Qed.

(** What [transcribe_audio] does, by the outcome of the engine. *)
Lemma transcribe_audio_cases (w : world) (m : whisper) (f : str) :
  let c := Call (ModelTranscribe m f decoding) in
  match model_transcribe w m f decoding with
  | Ret (segs, None) =>
      transcribe_audio w m f
      = ([Print MsgTranscribing; c Returned; Print MsgTranscriptionCompleted],
         Ret (strip (collect segs [])))
  | Ret (segs, Some e) =>
      if is_Exception e
      then transcribe_audio w m f
           = ([Print MsgTranscribing; c Returned; Print (MsgErrTranscribing e);
               Traceback], Ret transcription_failed)
      else transcribe_audio w m f
           = ([Print MsgTranscribing; c Returned], Raise e)
  | Raise e =>
      if is_Exception e
      then transcribe_audio w m f
           = ([Print MsgTranscribing; c (Raised e); Print (MsgErrTranscribing e);
               Traceback], Ret transcription_failed)
      else transcribe_audio w m f
           = ([Print MsgTranscribing; c (Raised e)], Raise e)
  end.
Proof.
  intros c. unfold transcribe_audio, consume.
  unfold try_except, except_Exception, extern, bind, print, print_exc, raise, ret.
  destruct (model_transcribe w m f decoding) as [ [segs [ [ | | | ] | ]] | [ | | | ] ];
    reflexivity.
Qed.

(* ----------------------------------------------------------------- *)
(** *** [main], stage after stage *)

Lemma main_after_save_no_file (w : world) (m : whisper) (af : option str) :
  has_file af = false ->
  main_after_save w m af = ([Print MsgFailedToSave], Raise (SystemExit 1)).
Proof. intros H. unfold main_after_save. rewrite H. reflexivity. Qed.

Lemma transcribe_audio_reaches (w : world) (m : whisper) (f : str) :
  reaches [Transcribe] (transcribe_audio w m f).
Proof.
  pose proof (transcribe_audio_cases w m f) as H. cbv zeta in H.
  destruct (model_transcribe w m f decoding) as [ [segs [ e | ]] | e ];
    try destruct (is_Exception e); rewrite H;
    split; try reflexivity; discriminate.
Qed.

Lemma main_after_save_reaches (w : world) (m : whisper) (af : option str) :
  reaches [Transcribe] (main_after_save w m af).
Proof.
  destruct (has_file af) eqn:Haf.
  - unfold main_after_save. rewrite Haf. cbn [negb].
    destruct (transcribe_audio_reaches w m
                (match af with Some f => f | None => [] end)) as [Hf Hr].
    destruct (transcribe_audio w m _) as [t [s | e]];
      unfold reaches, bind, print, ret; cbn in *.
    + rewrite marks_app. cbn. rewrite app_nil_r. split; [ exact Hf | ].
      intros _ _. exact (Hr s eq_refl).
    + split; [ exact Hf | discriminate ].
  - rewrite main_after_save_no_file by assumption.
    split; [ reflexivity | discriminate ].
Qed.

Lemma save_then_rest_reaches (w : world) (m : whisper) (audio : list float32)
    (sr : Z) (dir : str) :
  reaches [SaveWaveform; Transcribe]
    (bind (save_audio w audio sr dir) (main_after_save w m)).
Proof.
  pose proof (save_audio_cases w audio sr dir) as H. cbv zeta in H.
  destruct (write_wav w _ sr _) as [ [] | e ].
  - rewrite (bind_Ret _ _ _ _ H).
    destruct (main_after_save_reaches w m
                (Some (path_join dir (lit "recording_" ++ datetime_now w ++ lit ".wav"))))
      as [Hf Hr].
    unfold reaches. cbn [trace outcome_of fst snd] in *.
    rewrite marks_app.
    split.
    + apply (follows_all_done_app [SaveWaveform] [Transcribe]). exact Hf.
    + intros a Ha. rewrite map_app, (Hr a Ha). reflexivity.
  - destruct (is_Exception e).
    + rewrite (bind_Ret _ _ _ _ H), main_after_save_no_file by reflexivity.
      split; [ reflexivity | discriminate ].
    + rewrite (bind_Raise _ _ _ _ H). split; [ reflexivity | discriminate ].
Qed.

Lemma main_body_reaches (w : world) : reaches pipeline (main_body w).
Proof.
  unfold main_body.
  apply (reaches_bind [] pipeline); [ apply parse_arguments_staged | intros a ].
  apply (reaches_bind [] pipeline); [ apply create_output_directory_staged | intros dir ].
  apply (reaches_bind [SelectDevice; LoadModel]
           [StartCapture; AwaitCapture; SaveWaveform; Transcribe]);
    [ apply load_whisper_model_staged | intros m ].
  apply (reaches_bind [StartCapture; AwaitCapture] [SaveWaveform; Transcribe]);
    [ apply record_audio_staged | intros audio ].
  apply save_then_rest_reaches.
Qed.

(** The handlers of [main] only print. *)
Lemma main_marks (w : world) :
  marks (trace (main w)) = marks (trace (main_body w)) /\
  (forall a, outcome_of (main w) = Ret a -> outcome_of (main_body w) = Ret a).
Proof.
  unfold main, try_except, bind, print, print_exc, sys_exit, raise.
  destruct (main_body w) as [t [ [] | [ | | | ] ]]; cbn;
    rewrite ?marks_app; cbn; rewrite ?app_nil_r; split; try reflexivity;
    try discriminate; auto.
Qed.

Lemma main_reaches (w : world) : reaches pipeline (main w).
Proof.
  destruct (main_marks w) as [Hm Hr], (main_body_reaches w) as [Hf Hb].
  split; rewrite Hm; [ exact Hf | ].
  intros a Ha. exact (Hb a (Hr a Ha)).
Qed.

(** [SystemExit] goes through the handlers of [main]. *)
Lemma main_passes_exit (w : world) (t : list event) (code : Z) :
  main_body w = (t, Raise (SystemExit code)) ->
  main w = (t, Raise (SystemExit code)).
Proof. intros H. unfold main. rewrite H. reflexivity. Qed.

Lemma main_trace_transcribe (w : world) (e : event) :
  In e (trace (main w)) -> is_transcribe e = true -> In e (trace (main_body w)).
Proof.
  unfold main, try_except, bind, print, print_exc, sys_exit, raise.
  destruct (main_body w) as [t [ [] | [ | | | ] ]]; cbn; auto;
    rewrite in_app_iff; intros [H | H] He; auto; cbn in H;
    repeat (destruct H as [ <- | H ]; [ discriminate He | ]); contradiction.
Qed.

Lemma main_body_in_main (w : world) (e : event) :
  In e (trace (main_body w)) -> In e (trace (main w)).
Proof.
  unfold main, try_except, bind, print, print_exc, sys_exit, raise.
  destruct (main_body w) as [t [ [] | [ | | | ] ]]; cbn; auto;
    rewrite in_app_iff; auto.
Qed.

(** The run in which everything up to [save_audio] works and [save_audio]
    returns [None]. *)
Lemma failed_save_run (w : world) (a : args) (dir : str) (m : whisper)
    (audio : list float32) :
  outcome_of (parse_arguments w) = Ret a ->
  outcome_of (create_output_directory w (lit "recordings")) = Ret dir ->
  outcome_of (load_whisper_model w (model a) (download_latest a)) = Ret m ->
  outcome_of (record_audio w (duration a) (sample_rate a)) = Ret audio ->
  outcome_of (save_audio w audio (sample_rate a) dir) = Ret None ->
  main w =
    (trace (parse_arguments w)
     ++ trace (create_output_directory w (lit "recordings"))
     ++ trace (load_whisper_model w (model a) (download_latest a))
     ++ trace (record_audio w (duration a) (sample_rate a))
     ++ trace (save_audio w audio (sample_rate a) dir)
     ++ [Print MsgFailedToSave],
     Raise (SystemExit 1)).
Proof.
  intros H1 H2 H3 H4 H5. apply main_passes_exit. unfold main_body.
  rewrite (bind_Ret _ _ _ _ (run_eq _ _ H1)).
  rewrite (bind_Ret _ _ _ _ (run_eq _ _ H2)).
  rewrite (bind_Ret _ _ _ _ (run_eq _ _ H3)).
  rewrite (bind_Ret _ _ _ _ (run_eq _ _ H4)).
  rewrite (bind_Ret _ _ _ _ (run_eq _ _ H5)).
  rewrite main_after_save_no_file by reflexivity. reflexivity.
Qed.

Lemma transcribe_audio_call (w : world) (m : whisper) (f : str) (e : event) :
  In e (trace (transcribe_audio w m f)) -> is_transcribe e = true ->
  exists o, e = Call (ModelTranscribe m f decoding) o.
Proof.
  pose proof (transcribe_audio_cases w m f) as H. cbv zeta in H.
  destruct (model_transcribe w m f decoding) as [ [segs [ x | ]] | x ];
    try destruct (is_Exception x); rewrite H; cbn; intros Hin He;
    repeat (destruct Hin as [ <- | Hin ]; [ try discriminate He; eauto | ]);
    contradiction.
Qed.

Lemma main_after_save_call (w : world) (m : whisper) (af : option str) (e : event) :
  In e (trace (main_after_save w m af)) -> is_transcribe e = true ->
  exists f o, af = Some f /\ e = Call (ModelTranscribe m f decoding) o.
Proof.
  destruct (has_file af) eqn:Haf.
  - destruct af as [f | ]; [ | discriminate ].
    unfold main_after_save. rewrite Haf. cbn [negb].
    rewrite in_trace_bind. intros [Hin | [[] [_ Hin]]] He; [ contradiction | ].
    rewrite in_trace_bind in Hin. destruct Hin as [Hin | [s [_ Hin]]].
    + destruct (transcribe_audio_call w m f e Hin He) as [o Ho]. eauto.
    + exfalso. cbn in Hin.
      repeat (destruct Hin as [ <- | Hin ]; [ discriminate He | ]). contradiction.
  - rewrite main_after_save_no_file by assumption. cbn.
    intros [ <- | [] ]; discriminate.
Qed.

(** The engine is only called on a file [write_wav] has written. *)
Lemma transcribe_needs_saved_file (w : world) (m : whisper) (f : str)
    (o : decode_options) (oc : outcome) :
  In (Call (ModelTranscribe m f o) oc) (trace (main w)) ->
  exists sr data, In (Call (WriteWav f sr data) Returned) (trace (main w)).
Proof.
  intros Hin. apply main_trace_transcribe in Hin; [ | reflexivity ].
  unfold main_body in Hin.
  apply in_trace_bind in Hin as [Hin | [a [Ha Hin]]].
  { exfalso. eapply (not_existsb_in is_transcribe); [ | exact Hin | reflexivity ].
    apply (staged_absent []); [ apply parse_arguments_staged | ].
    apply transcribe_call_marked. cbn; tauto. }
  apply in_trace_bind in Hin as [Hin | [dir [Hdir Hin]]].
  { exfalso. eapply (not_existsb_in is_transcribe); [ | exact Hin | reflexivity ].
    apply (staged_absent []); [ apply create_output_directory_staged | ].
    apply transcribe_call_marked. cbn; tauto. }
  apply in_trace_bind in Hin as [Hin | [m0 [Hm0 Hin]]].
  { exfalso. eapply (not_existsb_in is_transcribe); [ | exact Hin | reflexivity ].
    apply (staged_absent [SelectDevice; LoadModel]);
      [ apply load_whisper_model_staged | ].
    apply transcribe_call_marked. cbn; intuition discriminate. }
  apply in_trace_bind in Hin as [Hin | [audio [Haudio Hin]]].
  { exfalso. eapply (not_existsb_in is_transcribe); [ | exact Hin | reflexivity ].
    apply (staged_absent [StartCapture; AwaitCapture]);
      [ apply record_audio_staged | ].
    apply transcribe_call_marked. cbn; intuition discriminate. }
  apply in_trace_bind in Hin as [Hin | [af [Haf Hin]]].
  { exfalso. eapply (not_existsb_in is_transcribe); [ | exact Hin | reflexivity ].
    apply save_audio_no_transcribe. }
  destruct (main_after_save_call w m0 af _ Hin eq_refl) as [f0 [o0 [-> E]]].
  injection E as -> -> -> ->.
  exists (sample_rate a), (audio_int16 audio).
  apply main_body_in_main. unfold main_body.
  apply in_trace_bind. right. exists a. split; [ exact Ha | ].
  apply in_trace_bind. right. exists dir. split; [ exact Hdir | ].
  apply in_trace_bind. right. exists m0. split; [ exact Hm0 | ].
  apply in_trace_bind. right. exists audio. split; [ exact Haudio | ].
  apply in_trace_bind. left. now apply save_audio_returns_written.
Qed.

(* ----------------------------------------------------------------- *)
(** *** The pipeline *)

(** C1. When everything up to [save_audio] works and [save_audio] returns
    its failure indicator [None], the run of [main] never calls
    [model.transcribe] and ends in [sys.exit(1)]; and in every run, a call
    of [model.transcribe] is on a file that a returning [write_wav] has
    written. *)
Theorem failed_save_skips_transcription (w : world) :
  (forall a dir m audio,
      outcome_of (parse_arguments w) = Ret a ->
      outcome_of (create_output_directory w (lit "recordings")) = Ret dir ->
      outcome_of (load_whisper_model w (model a) (download_latest a)) = Ret m ->
      outcome_of (record_audio w (duration a) (sample_rate a)) = Ret audio ->
      outcome_of (save_audio w audio (sample_rate a) dir) = Ret None ->
      existsb is_transcribe (trace (main w)) = false /\
      outcome_of (main w) = Raise (SystemExit 1) /\
      exit_status (outcome_of (main w)) = 1) /\
  (forall m f o oc,
      In (Call (ModelTranscribe m f o) oc) (trace (main w)) ->
      exists sr data, In (Call (WriteWav f sr data) Returned) (trace (main w))).
Proof.
  split; [ | apply transcribe_needs_saved_file ].
  intros a dir m audio H1 H2 H3 H4 H5.
  rewrite (failed_save_run w a dir m audio H1 H2 H3 H4 H5).
  cbn [trace outcome_of fst snd exit_status]. repeat split.
  rewrite !existsb_app.
  rewrite (staged_absent [] _ is_transcribe (parse_arguments_staged w))
    by (apply transcribe_call_marked; cbn; tauto).
  rewrite (staged_absent [] _ is_transcribe (create_output_directory_staged w _))
    by (apply transcribe_call_marked; cbn; tauto).
  rewrite (staged_absent _ _ is_transcribe (load_whisper_model_staged w _ _))
    by (apply transcribe_call_marked; cbn; intuition discriminate).
  rewrite (staged_absent _ _ is_transcribe (record_audio_staged w _ _))
    by (apply transcribe_call_marked; cbn; intuition discriminate).
  rewrite save_audio_no_transcribe. reflexivity.
Qed.

Lemma failed_save_skips_transcription_witness :
  outcome_of (save_audio disk_full_world silence 4 (lit "recordings")) = Ret None /\
  existsb is_transcribe (trace (main disk_full_world)) = false /\
  exit_status (outcome_of (main disk_full_world)) = 1.
Proof.
  split; [ reflexivity | ].
  destruct (proj1 (failed_save_skips_transcription disk_full_world)
              quiet_args (lit "recordings") cpu_model silence
              eq_refl eq_refl eq_refl eq_refl eq_refl) as [Hno [_ Hexit]].
  split; [ exact Hno | exact Hexit ].
Defined.

Lemma completed_before (l1 : list (stage * bool)) (s : stage) :
  Forall (fun m => snd m = true) l1 -> In s (map fst l1) -> In (s, true) l1.
Proof.
  intros Hall Hin. apply in_map_iff in Hin as [[s0 ok] [Hs Hin]].
  cbn in Hs. subst s0. rewrite Forall_forall in Hall.
  now rewrite <- (Hall _ Hin).
Qed.

(** The part of [pipeline] in front of a stage holds the stages that come
    earlier in it. *)
Lemma pipeline_before (front rest : list stage) (s s' : stage) :
  pipeline = front ++ s :: rest ->
  (s' = LoadModel /\ s = StartCapture) \/
  (s' = AwaitCapture /\ (s = SaveWaveform \/ s = Transcribe)) ->
  In s' front.
Proof.
  unfold pipeline. intros H Hs.
  destruct Hs as [ [-> ->] | [-> [ -> | -> ]] ];
    do 6 (destruct front as [ | ? front ];
          [ cbn in H; try discriminate H
          | cbn in H; injection H as <- H; try (cbn; tauto) ]);
    destruct front; discriminate H.
Qed.

(** C7. The stage marks of any run of [main] follow the fixed order
    device selection, model load, start of capture, wait for the capture,
    waveform save, transcription: where a stage is entered, exactly the
    stages before it in that order are behind, each one completed (so the
    model is loaded before [sd.rec], and [sd.wait] has returned before
    anything is saved or transcribed); a run that returns went through all
    six. *)
Theorem main_stage_order (w : world) :
  let ms := marks (trace (main w)) in
  (forall l1 s ok l2,
      ms = l1 ++ (s, ok) :: l2 ->
      (exists rest, pipeline = map fst l1 ++ s :: rest) /\
      Forall (fun m => snd m = true) l1) /\
  (forall l1 ok l2,
      ms = l1 ++ (StartCapture, ok) :: l2 -> In (LoadModel, true) l1) /\
  (forall l1 s ok l2,
      ms = l1 ++ (s, ok) :: l2 -> s = SaveWaveform \/ s = Transcribe ->
      In (AwaitCapture, true) l1) /\
  (outcome_of (main w) = Ret tt -> map fst ms = pipeline).
Proof.
  intros ms. destruct (main_reaches w) as [Hf Hr].
  split; [ | split; [ | split ] ].
  - intros l1 s ok l2 Hsplit. exact (follows_split l1 _ _ _ _ _ Hf Hsplit).
  - intros l1 ok l2 Hsplit.
    destruct (follows_split l1 _ _ _ _ _ Hf Hsplit) as [[rest Hp] Hall].
    apply (completed_before _ _ Hall). eapply pipeline_before; eauto.
  - intros l1 s ok l2 Hsplit Hs.
    destruct (follows_split l1 _ _ _ _ _ Hf Hsplit) as [[rest Hp] Hall].
    apply (completed_before _ _ Hall). eapply pipeline_before; eauto.
  - apply Hr.
Qed.

Lemma main_stage_order_witness :
  outcome_of (main quiet_world) = Ret tt /\
  map fst (marks (trace (main quiet_world))) = pipeline.
Proof.
  split; [ reflexivity | ].
  exact (proj2 (proj2 (proj2 (main_stage_order quiet_world))) eq_refl).
Defined.

(* ----------------------------------------------------------------- *)
(** *** Recording *)

(** C4. For every duration [d <= 0] and any sample rate, [record_audio]
    prints its error and raises [SystemExit(1)] without a single library
    call; in [main] that exit goes through both handlers, so the process
    ends with status 1 and neither [sd.rec] nor [sd.wait] is called. *)
Theorem record_audio_rejects_nonpositive (w : world) (d sr : Z) :
  d <= 0 ->
  record_audio w d sr = ([Print MsgDurationNotPositive], Raise (SystemExit 1)) /\
  existsb is_call (trace (record_audio w d sr)) = false /\
  exit_status (outcome_of (record_audio w d sr)) = 1 /\
  (forall a dir m,
      outcome_of (parse_arguments w) = Ret a ->
      outcome_of (create_output_directory w (lit "recordings")) = Ret dir ->
      outcome_of (load_whisper_model w (model a) (download_latest a)) = Ret m ->
      duration a = d -> sample_rate a = sr ->
      outcome_of (main w) = Raise (SystemExit 1) /\
      existsb is_device_call (trace (main w)) = false).
Proof.
  intros Hd. pose proof (record_audio_nonpositive w d sr Hd) as Hr.
  rewrite Hr. do 3 (split; [ reflexivity | ]).
  intros a dir m H1 H2 H3 <- <-.
  assert (Hmain : main w =
            (trace (parse_arguments w)
             ++ trace (create_output_directory w (lit "recordings"))
             ++ trace (load_whisper_model w (model a) (download_latest a))
             ++ [Print MsgDurationNotPositive],
             Raise (SystemExit 1))).
  { apply main_passes_exit. unfold main_body.
    rewrite (bind_Ret _ _ _ _ (run_eq _ _ H1)).
    rewrite (bind_Ret _ _ _ _ (run_eq _ _ H2)).
    rewrite (bind_Ret _ _ _ _ (run_eq _ _ H3)).
    rewrite (bind_Raise _ _ _ _ Hr). reflexivity. }
  rewrite Hmain. cbn [trace outcome_of fst snd]. split; [ reflexivity | ].
  rewrite !existsb_app.
  rewrite (staged_absent [] _ is_device_call (parse_arguments_staged w))
    by (apply device_call_marked; cbn; tauto).
  rewrite (staged_absent [] _ is_device_call (create_output_directory_staged w _))
    by (apply device_call_marked; cbn; tauto).
  rewrite (staged_absent _ _ is_device_call (load_whisper_model_staged w _ _))
    by (apply device_call_marked; cbn; intuition discriminate).
  reflexivity.
Qed.

Lemma record_audio_rejects_nonpositive_witness :
  0 <= 0 /\
  record_audio quiet_world 0 16000
  = ([Print MsgDurationNotPositive], Raise (SystemExit 1)).
Proof.
  split; [ lia | ].
  apply (record_audio_rejects_nonpositive quiet_world 0 16000). lia.
Defined.

(** C5. For every duration [d > 0] and sample rate [sr > 0], the first
    library call of [record_audio] is [sd.rec] for [d * sr] frames, a
    session it returns has exactly [d * sr] samples, and it does return
    one when the device, the sleeps and the wait raise nothing. *)
Theorem record_audio_sample_count (w : world) (d sr : Z) :
  0 < d -> 0 < sr ->
  (exists o tl,
      filter is_call (trace (record_audio w d sr))
      = Call (SdRec (d * sr) sr 1) o :: tl) /\
  (forall audio,
      outcome_of (record_audio w d sr) = Ret audio ->
      Z.of_nat (List.length audio) = d * sr) /\
  (rec_fault w (d * sr) sr = None ->
   (forall r, time_sleep w r = Ret tt) ->
   sd_wait w = Ret tt ->
   outcome_of (record_audio w d sr)
   = Ret (map (mic w) (seq 0 (Z.to_nat (d * sr))))).
Proof.
  intros Hd Hsr. unfold record_audio.
  destruct (Z.leb_spec d 0) as [ | _ ]; [ lia | ].
  pose proof (sd_rec_length w (d * sr) sr) as Hlen.
  pose proof (countdown_returns w (Z.to_nat d)) as Hcd.
  assert (Hrec : rec_fault w (d * sr) sr = None ->
                 sd_rec w (d * sr) sr = Ret (map (mic w) (seq 0 (Z.to_nat (d * sr))))).
  { intros Hnone. unfold sd_rec. rewrite Hnone.
    destruct (Z.ltb_spec (d * sr) 0); [ nia | reflexivity ]. }
  destruct (countdown_cases w (Z.to_nat d)) as [tc [rc [Ec Hc]]].
  pose proof (countdown_ticks w (Z.to_nat d)) as Htick.
  rewrite Ec in Hcd, Htick |- *. cbn [trace outcome_of fst snd] in Hcd, Htick.
  unfold try_except, except_Exception, extern, bind, print, print_exc, sys_exit,
    raise, ret.
  destruct (sd_rec w (d * sr) sr) as [ audio | [ | | | ] ]; cbn;
    try (repeat split; [ eauto | discriminate | intros Hn; discriminate (Hrec Hn) ]).
  destruct rc as [ [] | [ | | | ] ]; cbn;
    [ destruct (sd_wait w) as [ [] | [ | | | ] ]; cbn | .. ];
    (repeat split;
     [ eauto
     | intros a E; try discriminate; injection E as <-; now apply Hlen
     | intros Hn Hs Hw; try discriminate;
       try (specialize (Hcd Hs); discriminate);
       specialize (Hrec Hn); congruence ]).
Qed.

Lemma record_audio_sample_count_witness :
  0 < 1 /\ 0 < 16000 /\
  forall audio,
    outcome_of (record_audio quiet_world 1 16000) = Ret audio ->
    Z.of_nat (List.length audio) = 16000.
Proof.
  split; [ lia | split; [ lia | ] ].
  exact (proj1 (proj2 (record_audio_sample_count quiet_world 1 16000
                         ltac:(lia) ltac:(lia)))).
Defined.

(* ----------------------------------------------------------------- *)
(** *** Device selection *)

Lemma select_device_cases (w : world) (p : probe) :
  probe_of w = Some p ->
  exists t, select_device w = (t, Ret (selection p)) /\
            forall e, In e t -> forall sz d c o, e <> Call (WhisperModel sz d c) o.
Proof.
  unfold probe_of, select_device, is_cuda_available.
  unfold try_except, extern, bind, print, ret.
  destruct (import_torch w) as [ [] | [ | | | ] ];
    [ destruct (cuda_is_available w) as [ [ | ] | ] | .. ];
    intros E; try discriminate; injection E as <-; cbn;
    eexists; (split; [ reflexivity | ]);
    intros e He sz d c o;
    repeat (destruct He as [ <- | He ]; [ discriminate | ]); contradiction.
Qed.

(** C6. On the three results of the probe the selection is the mapping of
    the specification: [torch.cuda.is_available()] returning [True] gives
    [("cuda", "float16")]; its returning [False], or [import torch]
    failing, gives [("cpu", "int8")]; the model [load_whisper_model]
    returns, and any [WhisperModel] it constructs, carry that pair; and
    the pair is never anything else. *)
Theorem device_selection_mapping (w : world) (p : probe) :
  probe_of w = Some p ->
  outcome_of (select_device w) = Ret (selection p) /\
  (forall sz dl m,
      outcome_of (load_whisper_model w sz dl) = Ret m ->
      (w_device m, w_compute m) = selection p) /\
  (forall sz dl sz' d c o,
      In (Call (WhisperModel sz' d c) o) (trace (load_whisper_model w sz dl)) ->
      (d, c) = selection p) /\
  (selection p = (cuda, float16) <-> p = Available) /\
  (selection p = (cpu, int8) <-> p <> Available).
Proof.
  intros Hp. destruct (select_device_cases w p Hp) as [t [Ht Hsel]].
  split; [ now rewrite Ht | ].
  split; [ | split ].
  - intros sz dl m. unfold load_whisper_model. rewrite Ht.
    unfold try_except, except_Exception, extern, bind, print, print_exc, sys_exit,
      raise, ret.
    destruct (selection p) as [d c].
    destruct dl; [ destruct (download_model w sz) as [ [] | [ | | | ] ] | ]; cbn;
      try discriminate;
      destruct (whisper_model w sz d c) as [ [] | [ | | | ] ]; cbn;
      intros E; try discriminate; injection E as <-; reflexivity.
  - intros sz dl sz' d c o. unfold load_whisper_model. rewrite Ht.
    unfold try_except, except_Exception, extern, bind, print, print_exc, sys_exit,
      raise, ret.
    destruct (selection p) as [d0 c0].
    destruct dl; [ destruct (download_model w sz) as [ [] | [ | | | ] ] | ]; cbn;
      try destruct (whisper_model w sz d0 c0) as [ [] | [ | | | ] ]; cbn;
      rewrite ?in_app_iff; cbn; intros Hin;
      repeat match goal with
             | H : _ \/ _ |- _ => destruct H as [ H | H ]
             | H : In _ t |- _ => exfalso; exact (Hsel _ H _ _ _ _ eq_refl)
             | H : Call _ _ = Call _ _ |- _ => inversion H; subst; clear H
             | H : Print _ = Call _ _ |- _ => discriminate H
             | H : Traceback = Call _ _ |- _ => discriminate H
             | H : False |- _ => contradiction
             end; try reflexivity; try discriminate.
  - destruct p; cbn; split; split; intros H; try discriminate; try reflexivity;
      try congruence.
Qed.

Lemma device_selection_mapping_witness :
  probe_of quiet_world = Some Absent /\
  outcome_of (select_device quiet_world) = Ret (cpu, int8).
Proof.
  split; [ reflexivity | ].
  exact (proj1 (device_selection_mapping quiet_world Absent eq_refl)).
Defined.

(* ----------------------------------------------------------------- *)
(** *** Transcription *)

Lemma collect_acc (segs : list segment) :
  forall acc, collect segs acc = acc ++ collect segs [].
Proof.
  unfold collect. induction segs as [ | g segs IH ]; intros acc.
  - cbn. now rewrite app_nil_r.
  - cbn [fold_left]. rewrite IH, (IH ([] ++ _)). cbn [app].
    now rewrite <- app_assoc.
Qed.

(** The loop builds the joined texts, and one more space. *)
Lemma collect_join (segs : list segment) :
  segs <> [] ->
  collect segs [] = join (lit " ") (map text segs) ++ [space].
Proof.
  induction segs as [ | g segs IH ]; [ contradiction | intros _ ].
  unfold collect. cbn [fold_left]. fold (collect segs ([] ++ (text g ++ lit " "))).
  rewrite collect_acc. cbn [app].
  destruct segs as [ | g' segs ].
  - cbn. now rewrite app_nil_r.
  - rewrite IH by discriminate. cbn [map join]. change (lit " ") with [space].
    now rewrite <- !app_assoc.
Qed.

Lemma strip_collect (segs : list segment) :
  strip (collect segs []) = strip (join (lit " ") (map text segs)).
Proof.
  destruct segs as [ | g segs ]; [ reflexivity | ].
  rewrite collect_join by discriminate. apply strip_app_space.
Qed.

(** C9. When the engine yields the segments [segs] and its generator ends
    without an error, [transcribe_audio] returns their texts, in order,
    joined by single spaces, with leading and trailing whitespace
    stripped. *)
Theorem transcribe_audio_joins_segments (w : world) (m : whisper) (f : str)
    (segs : list segment) :
  model_transcribe w m f decoding = Ret (segs, None) ->
  outcome_of (transcribe_audio w m f)
  = Ret (strip (join (lit " ") (map text segs))).
Proof.
  intros H. pose proof (transcribe_audio_cases w m f) as Hc. cbv zeta in Hc.
  rewrite H in Hc. rewrite Hc. cbn. now rewrite strip_collect.
Qed.

Lemma transcribe_audio_joins_segments_witness :
  model_transcribe quiet_world cpu_model recording_path decoding
  = Ret ([ {| text := lit " hello" |}; {| text := lit " world" |} ], None) /\
  outcome_of (transcribe_audio quiet_world cpu_model recording_path)
  = Ret (lit "hello  world").
Proof.
  split; [ reflexivity | ].
  exact (transcribe_audio_joins_segments quiet_world cpu_model recording_path
           _ eq_refl).
Defined.





(* ----------------------------------------------------------------- *)
(** *** The samples in the file *)

(** On amplitudes of [[-1, 1]] the conversion is the truncation toward
    zero of the float32 product, and no sample leaves the int16 range. *)
Lemma quantize_unit_range (a : float32) :
  amplitude_ok a = true ->
  quantize a = Qtrunc (to_Q (mul a c32767)).
Proof.
  intros H. apply andb_prop in H as [Hv Hu].
  unfold quantize. apply astype_int16_in_range.
  pose proof (mul_c32767_unit_range a Hv Hu). lia.
Qed.

(** [save_audio] calls one library function, [write_wav], on the
    converted recording, whatever comes of it. *)
Lemma save_audio_one_write (w : world) (audio : list float32) (sr : Z)
    (dir : str) :
  exists f o,
    filter is_call (trace (save_audio w audio sr dir))
    = [Call (WriteWav f sr (audio_int16 audio)) o].
Proof.
  pose proof (save_audio_cases w audio sr dir) as H. cbv zeta in H.
  destruct (write_wav w _ sr _) as [ [] | e ]; [ | destruct (is_Exception e) ];
    rewrite H; cbn; eauto.
Qed.

(** A property of each amplitude and its sample holds along the recording
    and its converted array. *)
Lemma audio_int16_each (P : float32 -> Z -> Prop) (audio : list float32) :
  (forall a, P a (quantize a)) -> Forall2 P audio (audio_int16 audio).
Proof.
  intros HP. induction audio as [ | a audio IH ]; constructor; [ apply HP | exact IH ].
Qed.

(** C3. [save_audio] makes one library call, [write_wav], and the array
    it passes has one sample per amplitude of the recording, in order:
    for each amplitude that is a valid float32 of [[-1, 1]], whatever the
    other ones are, the sample is the float32 product [a * 32767]
    truncated toward zero; for amplitude 1.0 it is 32767 and for
    amplitude -1.0 it is -32767. *)
Theorem stored_sample_truncates (w : world) (audio : list float32) (sr : Z)
    (dir : str) :
  exists f o data,
    filter is_call (trace (save_audio w audio sr dir))
    = [Call (WriteWav f sr data) o] /\
    Forall2 (fun a s =>
               (amplitude_ok a = true -> s = Qtrunc (to_Q (mul a c32767))) /\
               (a = one -> s = 32767) /\
               (a = minus_one -> s = -32767))
            audio data.
Proof.
  destruct (save_audio_one_write w audio sr dir) as [f [o Hcall]].
  exists f, o, (audio_int16 audio). split; [ exact Hcall | ].
  apply audio_int16_each. intros a. split; [ apply quantize_unit_range | ].
  split; intros ->; reflexivity.
Qed.

Lemma stored_sample_truncates_witness :
  amplitude_ok three_eighths = true /\
  exists f o,
    filter is_call
      (trace (save_audio quiet_world [three_eighths; one; minus_one] 4
                (lit "recordings")))
    = [Call (WriteWav f 4 [12287; 32767; -32767]) o].
Proof.
  split; [ reflexivity | ].
  destruct (stored_sample_truncates quiet_world [three_eighths; one; minus_one] 4
              (lit "recordings")) as [f [o [data [Hcall Hall]]]].
  exists f, o. rewrite Hcall.
  inversion Hall as [ | a1 s1 l1 d1 [H1 _] Hall1 ]; subst.
  inversion Hall1 as [ | a2 s2 l2 d2 [_ [H2 _]] Hall2 ]; subst.
  inversion Hall2 as [ | a3 s3 l3 d3 [_ [_ H3]] Hall3 ]; subst.
  inversion Hall3; subst.
  rewrite (H1 eq_refl), (H2 eq_refl), (H3 eq_refl). reflexivity.
Defined.

(** The product is the float32 one: for the amplitude [2^-15 + 2^-30] the
    exact product [1 - 2^-30] truncates to 0, the float32 product is 1.0
    and 1 is stored. *)
Remark float_product_is_rounded :
  amplitude_ok above_2m15 = true /\
  Qtrunc (to_Q above_2m15 * to_Q c32767) = 0 /\
  mul above_2m15 c32767 = one /\
  quantize above_2m15 = 1.
Proof. repeat split; reflexivity. Qed.

(** C2, as the code has it.  [save_audio] makes one library call,
    [write_wav], and the array it passes has one sample per amplitude of
    the recording, in order: for each amplitude that is a valid float32
    of [[-1, 1]], whatever the other ones are, the sample is the float32
    product [a * 32767] with its fraction dropped: no larger in magnitude
    than the product and less than 1 away from it. *)
Theorem stored_sample_drops_fraction (w : world) (audio : list float32) (sr : Z)
    (dir : str) :
  exists f o data,
    filter is_call (trace (save_audio w audio sr dir))
    = [Call (WriteWav f sr data) o] /\
    Forall2 (fun a s =>
               amplitude_ok a = true ->
               (Qabs (inject_Z s) <= Qabs (to_Q (mul a c32767)))%Q /\
               (Qabs (to_Q (mul a c32767) - inject_Z s) < 1)%Q)
            audio data.
Proof.
  destruct (save_audio_one_write w audio sr dir) as [f [o Hcall]].
  exists f, o, (audio_int16 audio). split; [ exact Hcall | ].
  apply audio_int16_each. intros a Ha.
  rewrite (quantize_unit_range a Ha). apply Qtrunc_bounds.
Qed.

Lemma stored_sample_drops_fraction_witness :
  amplitude_ok three_eighths = true /\
  exists f o s,
    filter is_call
      (trace (save_audio quiet_world [three_eighths] 4 (lit "recordings")))
    = [Call (WriteWav f 4 [s]) o] /\
    (Qabs (inject_Z s) <= Qabs (to_Q (mul three_eighths c32767)))%Q /\
    (Qabs (to_Q (mul three_eighths c32767) - inject_Z s) < 1)%Q.
Proof.
  split; [ reflexivity | ].
  destruct (stored_sample_drops_fraction quiet_world [three_eighths]
              4 (lit "recordings")) as [f [o [data [Hcall Hall]]]].
  inversion Hall as [ | a1 s1 l1 d1 H1 Hall1 ]; subst.
  inversion Hall1; subst.
  exists f, o, s1. split; [ exact Hcall | exact (H1 eq_refl) ].
Defined.

(** C2, as stated, fails: the amplitude 0.375 gives the product
    12287.625, whose nearest integer is 12288; the sample [save_audio]
    passes to [write_wav] is 12287. *)
Lemma stored_sample_not_rounded :
  amplitude_ok three_eighths = true /\
  (to_Q (mul three_eighths c32767) == 98301 # 8)%Q /\
  py_round (to_Q (mul three_eighths c32767)) = 12288 /\
  audio_int16 [three_eighths] = [12287] /\
  quantize three_eighths <> py_round (to_Q (mul three_eighths c32767)) /\
  filter is_call
    (trace (save_audio quiet_world [three_eighths] 4 (lit "recordings")))
  = [Call (WriteWav recording_path 4 [12287]) Returned].
Proof.
  split; [ reflexivity | ]. split; [ reflexivity | ].
  split; [ reflexivity | ]. split; [ reflexivity | ].
  split; [ vm_compute; discriminate | reflexivity ].
Qed.

(** C10. The conversion does not saturate: the amplitude 1.5, outside
    [[-1, 1]], gives the product 49150.5, above the int16 range; and
    wherever it stands in a recording, the sample [save_audio] passes to
    [write_wav] for it is neither 32767 nor -32768 but 49150 reduced
    modulo [2^16] into the int16 range, -16386. *)
Theorem out_of_range_sample_wraps :
  valid one_and_half = true /\
  leb one one_and_half = true /\
  in_unit_range one_and_half = false /\
  (to_Q (mul one_and_half c32767) == 98301 # 2)%Q /\
  Qtrunc (to_Q (mul one_and_half c32767)) = 49150 /\
  audio_int16 [one_and_half] = [-16386] /\
  quantize one_and_half = wrap16 (Qtrunc (to_Q (mul one_and_half c32767))) /\
  (quantize one_and_half - 49150) mod 2 ^ 16 = 0 /\
  quantize one_and_half <> 32767 /\
  quantize one_and_half <> -32768 /\
  forall (w : world) (audio : list float32) (sr : Z) (dir : str),
  exists f o data,
    filter is_call (trace (save_audio w audio sr dir))
    = [Call (WriteWav f sr data) o] /\
    Forall2 (fun a s =>
               a = one_and_half ->
               s = wrap16 (Qtrunc (to_Q (mul a c32767))) /\
               s = 49150 - 2 ^ 16 /\ s <> 32767 /\ s <> -32768)
            audio data.
Proof.
  do 8 (split; [ reflexivity | ]).
  split; [ vm_compute; discriminate | ].
  split; [ vm_compute; discriminate | ].
  intros w audio sr dir.
  destruct (save_audio_one_write w audio sr dir) as [f [o Hcall]].
  exists f, o, (audio_int16 audio). split; [ exact Hcall | ].
  apply audio_int16_each. intros a ->.
  split; [ reflexivity | ]. split; [ reflexivity | ].
  split; vm_compute; discriminate.
Qed.

Lemma out_of_range_sample_wraps_witness :
  exists f o,
    filter is_call
      (trace (save_audio quiet_world [one_and_half] 4 (lit "recordings")))
    = [Call (WriteWav f 4 [-16386]) o].
Proof.
  destruct out_of_range_sample_wraps
    as [_ [_ [_ [_ [_ [_ [_ [_ [_ [_ Hsave]]]]]]]]]].
  destruct (Hsave quiet_world [one_and_half] 4 (lit "recordings"))
    as [f [o [data [Hcall Hall]]]].
  inversion Hall as [ | a1 s1 l1 d1 H1 Hall1 ]; subst.
  inversion Hall1; subst.
  destruct (H1 eq_refl) as [_ [Hs _]].
  exists f, o. rewrite Hcall, Hs. reflexivity.
Defined.

End AsrFacts.

(* ================================================================= *)
(** ** More on the script: exits, files, failures *)

Module AsrMore.

Import Float32 PyStr Asr Float32Facts PyStrFacts AsrFacts.
Local Open Scope py_scope.

(* ----------------------------------------------------------------- *)
(** *** Exceptions that no handler of a function takes *)



Lemma propagates_print_exc : propagates print_exc.
Proof. intros call e _ [ H | [] ]. discriminate H. Qed.






Lemma except_Exception_quiet {A} (h : exc -> Py A) :
  (forall e, existsb is_call (trace (h e)) = false /\
             forall e', outcome_of (h e) = Raise e' -> e' = SystemExit 1) ->
  quiet_handler (except_Exception h).
Proof.
  intros Hh e k. unfold except_Exception.
  destruct (is_Exception e); [ | discriminate ].
  intros E. injection E as <-. split; [ reflexivity | apply Hh ].
Qed.









Lemma main_calls_in_body (w : world) (c : call) (o : outcome) :
  In (Call c o) (trace (main w)) -> In (Call c o) (trace (main_body w)).
Proof.
  unfold main, try_except, bind, print, print_exc, sys_exit, raise.
  destruct (main_body w) as [t [ [] | [ | | | ] ]]; cbn; auto;
    rewrite in_app_iff; intros [H | H]; auto; cbn in H;
    repeat (destruct H as [ H | H ]; [ discriminate H | ]); contradiction.
Qed.



(* ----------------------------------------------------------------- *)
(** *** Where a raised exception comes from *)

Lemma accounted_ret {A} (w : world) (a : A) : accounted w (ret a).
Proof. intros e. discriminate. Qed.

Lemma accounted_print (w : world) (m : message) : accounted w (print m).
Proof. intros e. discriminate. Qed.

Lemma accounted_sys_exit_1 {A} (w : world) : accounted w (@sys_exit A 1).
Proof. intros e E. injection E as <-. now left. Qed.

Lemma accounted_extern {A} (w : world) (c : call) (r : result A) :
  accounted w (extern c r).
Proof.
  intros e. destruct r as [ a | x ]; cbn; [ discriminate | ].
  intros E. injection E as ->. right; left. exists c. now left.
Qed.

Lemma accounted_bind {A B} (w : world) (c : Py A) (k : A -> Py B) :
  accounted w c -> (forall a, accounted w (k a)) -> accounted w (bind c k).
Proof.
  intros Hc Hk e. destruct c as [t [ a | x ]] eqn:Ec.
  - rewrite (bind_Ret _ _ _ _ eq_refl). cbn [trace outcome_of fst snd].
    intros E. destruct (Hk a e E) as [ H | [ [call H] | H ] ];
      [ now left | | now right; right ].
    right; left. exists call. apply in_or_app. now right.
  - cbn. intros E. injection E as ->.
    destruct (Hc e eq_refl) as [ H | [ [call H] | H ] ];
      [ now left | | now right; right ].
    right; left. now exists call.
Qed.

Lemma accounted_try {A} (w : world) (body : Py A) (h : exc -> option (Py A)) :
  accounted w body -> quiet_handler h -> accounted w (try_except body h).
Proof.
  intros Hb Hh e. unfold try_except.
  destruct body as [t [ a | x ]] eqn:Eb; [ discriminate | ].
  destruct (h x) as [ k | ] eqn:Ehx; [ | exact (Hb e) ].
  destruct (Hh x k Ehx) as [_ [_ Hk]]. destruct k as [t' r']. cbn in *.
  intros E. left. now apply Hk.
Qed.

Lemma countdown_accounted (w : world) (n : nat) : accounted w (countdown w n).
Proof.
  induction n as [ | k IH ]; [ apply accounted_ret | ].
  cbn [countdown]. apply accounted_bind; [ apply accounted_print | intros _ ].
  apply accounted_bind; [ apply accounted_extern | intros _; exact IH ].
Qed.

Lemma is_cuda_available_accounted (w : world) : accounted w (is_cuda_available w).
Proof.
  apply accounted_try.
  - apply accounted_bind; [ apply accounted_extern | intros _; apply accounted_extern ].
  - intros e k. destruct e; try discriminate. intros E. injection E as <-.
    repeat split. intros e'. cbn. discriminate.
Qed.

Lemma create_output_directory_accounted (w : world) (d : str) :
  accounted w (create_output_directory w d).
Proof.
  apply accounted_bind; [ apply accounted_extern | intros present ].
  apply accounted_bind; [ | intros _; apply accounted_ret ].
  destruct present; [ apply accounted_ret | apply accounted_extern ].
Qed.

Lemma load_whisper_model_accounted (w : world) (sz : model_size) (dl : bool) :
  accounted w (load_whisper_model w sz dl).
Proof.
  apply accounted_bind.
  { apply accounted_bind; [ apply is_cuda_available_accounted | intros b ].
    destruct b; (apply accounted_bind; [ apply accounted_print | intros _ ]);
      apply accounted_ret. }
  intros [d c]. apply accounted_try.
  - apply accounted_bind.
    { destruct dl; [ | apply accounted_ret ].
      apply accounted_bind; [ apply accounted_print | intros _ ].
      apply accounted_bind; [ apply accounted_extern | intros _ ].
      apply accounted_print. }
    intros _. apply accounted_bind; [ apply accounted_print | intros _ ].
    apply accounted_bind; [ apply accounted_extern | intros _ ].
    apply accounted_bind; [ apply accounted_print | intros _ ].
    apply accounted_ret.
  - apply except_Exception_quiet. intros e. split; [ reflexivity | ].
    cbn. intros e' E. now injection E as <-.
Qed.

Lemma record_audio_accounted (w : world) (d sr : Z) :
  accounted w (record_audio w d sr).
Proof.
  apply accounted_bind.
  { destruct (d <=? 0); [ | apply accounted_ret ].
    apply accounted_bind; [ apply accounted_print | intros _ ].
    apply accounted_sys_exit_1. }
  intros _. apply accounted_bind; [ apply accounted_print | intros _ ].
  apply accounted_bind; [ apply accounted_print | intros _ ].
  apply accounted_try.
  - apply accounted_bind; [ apply accounted_extern | intros audio ].
    apply accounted_bind; [ apply countdown_accounted | intros _ ].
    apply accounted_bind; [ apply accounted_print | intros _ ].
    apply accounted_bind; [ apply accounted_extern | intros _ ].
    apply accounted_ret.
  - apply except_Exception_quiet. intros e. split; [ reflexivity | ].
    cbn. intros e' E. now injection E as <-.
Qed.

Lemma save_audio_accounted (w : world) (audio : list float32) (sr : Z) (dir : str) :
  accounted w (save_audio w audio sr dir).
Proof.
  apply accounted_try.
  - apply accounted_bind; [ apply accounted_extern | intros _ ].
    apply accounted_bind; [ apply accounted_print | intros _ ].
    apply accounted_ret.
  - apply except_Exception_quiet. intros e. split; [ reflexivity | ].
    cbn. discriminate.
Qed.

Lemma transcribe_audio_accounted (w : world) (m : whisper) (f : str) :
  accounted w (transcribe_audio w m f).
Proof.
  pose proof (transcribe_audio_cases w m f) as H. cbv zeta in H.
  intros e. destruct (model_transcribe w m f decoding) as [ [segs [ x | ]] | x ] eqn:Em;
    try destruct (is_Exception x); rewrite H; cbn; try discriminate;
    intros E; injection E as ->.
  - right; right. now exists m, f, segs.
  - right; left. eexists. right. now left.
Qed.

Lemma main_body_accounted (w : world) : accounted w (main_body w).
Proof.
  apply accounted_bind; [ apply accounted_extern | intros a ].
  apply accounted_bind; [ apply create_output_directory_accounted | intros dir ].
  apply accounted_bind; [ apply load_whisper_model_accounted | intros m ].
  apply accounted_bind; [ apply record_audio_accounted | intros audio ].
  apply accounted_bind; [ apply save_audio_accounted | intros af ].
  apply accounted_bind.
  { destruct (negb (has_file af)); [ | apply accounted_ret ].
    apply accounted_bind; [ apply accounted_print | intros _ ].
    apply accounted_sys_exit_1. }
  intros _. apply accounted_bind; [ apply transcribe_audio_accounted | intros t ].
  repeat (apply accounted_bind; [ apply accounted_print | intros _ ]).
  apply accounted_print.
Qed.

(** X1. The exits of the script itself are 0 and 1: when [main] ends
    with [SystemExit] of some code, the code is 0 or 1 unless a library
    call in the trace, or the segment generator, itself raised a
    [SystemExit] with that code. *)
Theorem main_exit_status (w : world) (c : Z) :
  outcome_of (main w) = Raise (SystemExit c) ->
  c = 0 \/ c = 1 \/
  (exists call, In (Call call (Raised (SystemExit c))) (trace (main w))) \/
  generator_raises w (SystemExit c).
Proof.
  pose proof (main_body_accounted w) as Hacc.
  unfold main, try_except, bind, print, print_exc, sys_exit, raise.
  destruct (main_body w) as [t [ [] | [ msg | msg | | code ] ]]; cbn;
    intros E; try discriminate; injection E as <-; auto.
  destruct (Hacc (SystemExit code) eq_refl) as [ H | [ H | H ] ]; auto.
  injection H as ->. auto.
Qed.

(* ----------------------------------------------------------------- *)
(** *** The file [main] writes *)

Lemma follows_absent (full : list stage) (t : list event) (p : event -> bool) :
  follows full (marks t) = true ->
  (forall e, p e = true -> exists s ok, mark e = Some (s, ok) /\ ~ In s full) ->
  existsb p t = false.
Proof.
  intros Hf Hp. destruct (existsb p t) eqn:E; [ | reflexivity ].
  exfalso. apply existsb_exists in E as [e [Hin He]].
  destruct (Hp e He) as [s [ok [Hm Hn]]].
  apply (mark_in_marks _ _ _ Hin) in Hm.
  apply in_split in Hm as [l1 [l2 Hs]].
  destruct (follows_split l1 _ _ _ _ _ Hf Hs) as [[rest Hr] _].
  apply Hn. rewrite Hr. apply in_or_app. right. now left.
Qed.

Lemma write_call_marked (full : list stage) :
  ~ In SaveWaveform full ->
  forall e, is_write e = true ->
  exists s ok, mark e = Some (s, ok) /\ ~ In s full.
Proof.
  intros H e. destruct e as [ | | [] o ]; try discriminate; intros _.
  exists SaveWaveform, (completed o). now split.
Qed.

Lemma load_call_marked (full : list stage) :
  ~ In LoadModel full ->
  forall e, is_load e = true ->
  exists s ok, mark e = Some (s, ok) /\ ~ In s full.
Proof.
  intros H e. destruct e as [ | | [] o ]; try discriminate; intros _.
  exists LoadModel, (completed o). now split.
Qed.

Lemma parse_arguments_returns (w : world) (a : args) :
  outcome_of (parse_arguments w) = Ret a -> parse_args w = Ret a.
Proof.
  unfold parse_arguments, extern. destruct (parse_args w); cbn; congruence.
Qed.

Lemma create_output_directory_returns (w : world) (d dir : str) :
  outcome_of (create_output_directory w d) = Ret dir -> dir = d.
Proof.
  unfold create_output_directory, extern, bind, ret.
  destruct (path_exists w d) as [ [ | ] | e ]; cbn;
    [ | destruct (makedirs w d) as [ [] | e ]; cbn | ]; congruence.
Qed.

(** [record_audio] returns only for a positive duration, after [sd.wait]
    returned, and with as many samples as it asked [sd.rec] for. *)
Lemma record_audio_returns (w : world) (d sr : Z) (audio : list float32) :
  outcome_of (record_audio w d sr) = Ret audio ->
  0 < d /\ Z.of_nat (List.length audio) = d * sr /\
  In (Call SdWait Returned) (trace (record_audio w d sr)).
Proof.
  destruct (Z.leb_spec d 0) as [Hd | Hd].
  - rewrite record_audio_nonpositive by assumption. discriminate.
  - unfold record_audio.
    destruct (Z.leb_spec d 0) as [ | _ ]; [ lia | ].
    pose proof (sd_rec_length w (d * sr) sr) as Hlen.
    destruct (countdown w (Z.to_nat d)) as [tc rc].
    unfold try_except, except_Exception, extern, bind, print, print_exc, sys_exit,
      raise, ret.
    destruct (sd_rec w (d * sr) sr) as [ a0 | [ | | | ] ]; cbn; try discriminate.
    destruct rc as [ [] | [ | | | ] ]; cbn;
      [ destruct (sd_wait w) as [ [] | [ | | | ] ]; cbn | .. ]; try discriminate.
    intros E. injection E as <-. split; [ assumption | ].
    split; [ now apply Hlen | ].
    do 3 right. apply in_or_app. right. right. now left.
Qed.

Lemma recordings_path (ts : str) :
  path_join (lit "recordings") (lit "recording_" ++ ts ++ lit ".wav")
  = lit "recordings/recording_" ++ ts ++ lit ".wav".
Proof. reflexivity. Qed.

Lemma quantize_int16 (a : float32) : -32768 <= quantize a <= 32767.
Proof.
  unfold quantize, astype_int16.
  destruct (mul a c32767) as [ s | s | | s m e ]; try lia.
  cbv zeta. destruct (_ && _); [ | lia ].
  unfold wrap16. pose proof (Z.mod_pos_bound (int_part s m e + 32768) 65536). lia.
Qed.

(** X5. Whatever [main] hands to [write_wav] is the recording: the file
    is [recordings/recording_<timestamp>.wav], the rate is the
    [--sample-rate] argument, and the data are the converted samples of
    what [record_audio] returned, [duration * sample_rate] of them, each
    in the int16 range. *)
Theorem main_writes_the_recording (w : world) (f : str) (rate : Z)
    (data : list Z) (o : outcome) :
  In (Call (WriteWav f rate data) o) (trace (main w)) ->
  exists a audio,
    parse_args w = Ret a /\
    outcome_of (record_audio w (duration a) (sample_rate a)) = Ret audio /\
    f = lit "recordings/recording_" ++ datetime_now w ++ lit ".wav" /\
    rate = sample_rate a /\
    data = audio_int16 audio /\
    Z.of_nat (List.length data) = duration a * sample_rate a /\
    Forall (fun s => -32768 <= s <= 32767) data.
Proof.
  intros Hin. apply main_calls_in_body in Hin. unfold main_body in Hin.
  apply in_trace_bind in Hin as [Hin | [a [Ha Hin]]].
  { exfalso. eapply (not_existsb_in is_write); [ | exact Hin | reflexivity ].
    apply (staged_absent []); [ apply parse_arguments_staged | ].
    apply write_call_marked. cbn; tauto. }
  apply in_trace_bind in Hin as [Hin | [dir [Hdir Hin]]].
  { exfalso. eapply (not_existsb_in is_write); [ | exact Hin | reflexivity ].
    apply (staged_absent []); [ apply create_output_directory_staged | ].
    apply write_call_marked. cbn; tauto. }
  apply in_trace_bind in Hin as [Hin | [m0 [Hm0 Hin]]].
  { exfalso. eapply (not_existsb_in is_write); [ | exact Hin | reflexivity ].
    apply (staged_absent [SelectDevice; LoadModel]);
      [ apply load_whisper_model_staged | ].
    apply write_call_marked. cbn; intuition discriminate. }
  apply in_trace_bind in Hin as [Hin | [audio [Haudio Hin]]].
  { exfalso. eapply (not_existsb_in is_write); [ | exact Hin | reflexivity ].
    apply (staged_absent [StartCapture; AwaitCapture]);
      [ apply record_audio_staged | ].
    apply write_call_marked. cbn; intuition discriminate. }
  apply in_trace_bind in Hin as [Hin | [af [Haf Hin]]].
  - apply create_output_directory_returns in Hdir. subst dir.
    pose proof (save_audio_cases w audio (sample_rate a) (lit "recordings")) as Hs.
    cbv zeta in Hs. rewrite recordings_path in Hs.
    destruct (save_audio_written _ _ _ _ _ _ _ _ Hin) as [-> ->].
    exists a, audio. split; [ now apply parse_arguments_returns | ].
    split; [ exact Haudio | ]. split.
    { destruct (write_wav w _ (sample_rate a) _) as [ [] | e ];
        [ | destruct (is_Exception e) ]; rewrite Hs in Hin; cbn [trace fst In] in Hin;
        repeat (destruct Hin as [ E | Hin ];
                [ try discriminate E; inversion E; reflexivity | ]);
        contradiction. }
    split; [ reflexivity | ]. split; [ reflexivity | ]. split.
    + unfold audio_int16. rewrite length_map.
      now destruct (record_audio_returns _ _ _ _ Haudio) as [_ [H _]].
    + unfold audio_int16. apply Forall_forall. intros s Hs'.
      apply in_map_iff in Hs' as [x [<- _]]. apply quantize_int16.
  - exfalso. eapply (not_existsb_in is_write); [ | exact Hin | reflexivity ].
    apply (follows_absent [Transcribe]);
      [ apply main_after_save_reaches | ].
    apply write_call_marked. cbn; intuition discriminate.
Qed.

Lemma main_writes_the_recording_witness :
  In (Call (WriteWav recording_path 4 [0; 0; 0; 0]) Returned)
     (trace (main quiet_world)) /\
  exists a audio,
    parse_args quiet_world = Ret a /\
    outcome_of (record_audio quiet_world (duration a) (sample_rate a)) = Ret audio /\
    recording_path
    = lit "recordings/recording_" ++ datetime_now quiet_world ++ lit ".wav" /\
    4 = sample_rate a /\
    [0; 0; 0; 0] = audio_int16 audio /\
    Z.of_nat (List.length [0; 0; 0; 0]) = duration a * sample_rate a /\
    Forall (fun s => -32768 <= s <= 32767) [0; 0; 0; 0].
Proof.
  assert (Hin : In (Call (WriteWav recording_path 4 [0; 0; 0; 0]) Returned)
                   (trace (main quiet_world))).
  { vm_compute. repeat first [ left; reflexivity | right ]. }
  split; [ exact Hin | ].
  exact (main_writes_the_recording quiet_world _ _ _ _ Hin).
Defined.

(* ----------------------------------------------------------------- *)
(** *** File names *)

Lemma save_audio_filename (w : world) (audio : list float32) (sr : Z)
    (dir f : str) :
  outcome_of (save_audio w audio sr dir) = Ret (Some f) ->
  f = path_join dir (lit "recording_" ++ datetime_now w ++ lit ".wav").
Proof.
  pose proof (save_audio_cases w audio sr dir) as H. cbv zeta in H.
  destruct (write_wav w _ sr _) as [ [] | e ]; [ | destruct (is_Exception e) ];
    rewrite H; cbn; intros E; try discriminate. now injection E as <-.
Qed.

Lemma path_join_recording (dir ts : str) :
  exists sep,
    (sep = [] \/ sep = [slash]) /\
    (forall ts', path_join dir (lit "recording_" ++ ts' ++ lit ".wav")
                 = dir ++ sep ++ lit "recording_" ++ ts' ++ lit ".wav").
Proof.
  unfold path_join.
  destruct (match dir with [] => true | _ => endswith_slash dir end).
  - exists []. split; [ now left | reflexivity ].
  - exists [slash]. split; [ now right | reflexivity ].
Qed.

(** X6. Two successful saves into the same directory give the same file
    name exactly when their timestamps are equal; and a returned file
    name is never empty, so [main] never takes a successful save for a
    failed one. *)
Theorem file_names_collide_iff_same_second (w1 w2 : world)
    (audio1 audio2 : list float32) (sr1 sr2 : Z) (dir f1 f2 : str) :
  outcome_of (save_audio w1 audio1 sr1 dir) = Ret (Some f1) ->
  outcome_of (save_audio w2 audio2 sr2 dir) = Ret (Some f2) ->
  (f1 = f2 <-> datetime_now w1 = datetime_now w2) /\
  PyStr.truthy f1 = true.
Proof.
  intros H1 H2. apply save_audio_filename in H1, H2. subst f1 f2.
  destruct (path_join_recording dir (datetime_now w1)) as [sep [Hsep Hj]].
  rewrite !Hj. split.
  - split.
    + intros E. apply app_inv_head in E. apply app_inv_head in E.
      apply app_inv_head in E. now apply app_inv_tail in E.
    + now intros ->.
  - destruct dir; [ destruct Hsep as [ -> | -> ] | ]; reflexivity.
Qed.

Lemma file_names_collide_iff_same_second_witness :
  outcome_of (save_audio quiet_world silence 4 (lit "recordings"))
  = Ret (Some recording_path) /\
  outcome_of (save_audio next_second_world silence 4 (lit "recordings"))
  = Ret (Some (lit "recordings/recording_20240101_120001.wav")) /\
  recording_path <> lit "recordings/recording_20240101_120001.wav".
Proof.
  split; [ reflexivity | split; [ reflexivity | ] ].
  intros E.
  apply (proj1 (file_names_collide_iff_same_second quiet_world next_second_world
                  silence silence 4 4 (lit "recordings") _ _ eq_refl eq_refl)) in E.
  discriminate E.
Defined.

(* ----------------------------------------------------------------- *)
(** *** Runs that get to the transcription *)

Lemma save_audio_file_truthy (w : world) (audio : list float32) (sr : Z)
    (dir f : str) :
  outcome_of (save_audio w audio sr dir) = Ret (Some f) ->
  has_file (Some f) = true.
Proof.
  intros H. apply save_audio_filename in H. subst f.
  destruct (path_join_recording dir (datetime_now w)) as [sep [Hsep Hj]].
  rewrite Hj. destruct dir; [ destruct Hsep as [ -> | -> ] | ]; reflexivity.
Qed.

Lemma main_through_save (w : world) (a : args) (dir : str) (m : whisper)
    (audio : list float32) (af : option str) :
  outcome_of (parse_arguments w) = Ret a ->
  outcome_of (create_output_directory w (lit "recordings")) = Ret dir ->
  outcome_of (load_whisper_model w (model a) (download_latest a)) = Ret m ->
  outcome_of (record_audio w (duration a) (sample_rate a)) = Ret audio ->
  outcome_of (save_audio w audio (sample_rate a) dir) = Ret af ->
  main_body w =
    (trace (parse_arguments w)
     ++ trace (create_output_directory w (lit "recordings"))
     ++ trace (load_whisper_model w (model a) (download_latest a))
     ++ trace (record_audio w (duration a) (sample_rate a))
     ++ trace (save_audio w audio (sample_rate a) dir)
     ++ trace (main_after_save w m af),
     outcome_of (main_after_save w m af)).
Proof.
  intros H1 H2 H3 H4 H5. unfold main_body.
  rewrite (bind_Ret _ _ _ _ (run_eq _ _ H1)).
  rewrite (bind_Ret _ _ _ _ (run_eq _ _ H2)).
  rewrite (bind_Ret _ _ _ _ (run_eq _ _ H3)).
  rewrite (bind_Ret _ _ _ _ (run_eq _ _ H4)).
  rewrite (bind_Ret _ _ _ _ (run_eq _ _ H5)).
  reflexivity.
Qed.

(** X3. When every stage returns, [main] returns (status 0), and its
    trace ends with the trace of [transcribe_audio] on the saved file
    followed by the result block, whose transcript is the string
    [transcribe_audio] returned. *)
Theorem main_prints_the_transcript (w : world) (a : args) (dir : str) (m : whisper)
    (audio : list float32) (f t : str) :
  outcome_of (parse_arguments w) = Ret a ->
  outcome_of (create_output_directory w (lit "recordings")) = Ret dir ->
  outcome_of (load_whisper_model w (model a) (download_latest a)) = Ret m ->
  outcome_of (record_audio w (duration a) (sample_rate a)) = Ret audio ->
  outcome_of (save_audio w audio (sample_rate a) dir) = Ret (Some f) ->
  outcome_of (transcribe_audio w m f) = Ret t ->
  outcome_of (main w) = Ret tt /\
  exit_status (outcome_of (main w)) = 0 /\
  exists before,
    trace (main w)
    = before ++ trace (transcribe_audio w m f)
             ++ [Print MsgRule; Print MsgResultHeader; Print MsgRule;
                 Print (MsgTranscript t); Print MsgRule].
Proof.
  intros H1 H2 H3 H4 H5 H6.
  pose proof (main_through_save w a dir m audio _ H1 H2 H3 H4 H5) as Hb.
  assert (Ha : main_after_save w m (Some f)
               = (trace (transcribe_audio w m f)
                  ++ [Print MsgRule; Print MsgResultHeader; Print MsgRule;
                      Print (MsgTranscript t); Print MsgRule], Ret tt)).
  { unfold main_after_save.
    rewrite (save_audio_file_truthy _ _ _ _ _ H5). cbn [negb].
    rewrite (bind_Ret _ _ [] tt eq_refl).
    rewrite (bind_Ret _ _ _ _ (run_eq _ _ H6)). reflexivity. }
  rewrite Ha in Hb. cbn [trace outcome_of fst snd] in Hb.
  unfold main. rewrite Hb. cbn [try_except trace outcome_of fst snd exit_status].
  repeat split.
  eexists. rewrite !app_assoc. reflexivity.
Qed.

Lemma main_prints_the_transcript_witness :
  outcome_of (transcribe_audio quiet_world cpu_model recording_path)
  = Ret (lit "hello  world") /\
  outcome_of (main quiet_world) = Ret tt /\
  exit_status (outcome_of (main quiet_world)) = 0.
Proof.
  split; [ reflexivity | ].
  destruct (main_prints_the_transcript quiet_world quiet_args (lit "recordings")
              cpu_model silence recording_path (lit "hello  world")
              eq_refl eq_refl eq_refl eq_refl eq_refl eq_refl) as [H1 [H2 _]].
  split; [ exact H1 | exact H2 ].
Defined.

(** X4. When the engine raises an [Exception] on the saved file, [main]
    still returns, with status 0: it prints the sentinel message as the
    transcript, and the file was written. *)
Theorem failed_transcription_still_exits_0 (w : world) (a : args) (dir : str)
    (m : whisper) (audio : list float32) (f : str) (e : exc) :
  outcome_of (parse_arguments w) = Ret a ->
  outcome_of (create_output_directory w (lit "recordings")) = Ret dir ->
  outcome_of (load_whisper_model w (model a) (download_latest a)) = Ret m ->
  outcome_of (record_audio w (duration a) (sample_rate a)) = Ret audio ->
  outcome_of (save_audio w audio (sample_rate a) dir) = Ret (Some f) ->
  model_transcribe w m f decoding = Raise e ->
  is_Exception e = true ->
  outcome_of (main w) = Ret tt /\
  exit_status (outcome_of (main w)) = 0 /\
  In (Print (MsgTranscript transcription_failed)) (trace (main w)) /\
  In (Call (WriteWav f (sample_rate a) (audio_int16 audio)) Returned)
     (trace (main w)).
Proof.
  intros H1 H2 H3 H4 H5 H6 H7.
  pose proof (transcribe_audio_cases w m f) as Hc. cbv zeta in Hc.
  rewrite H6, H7 in Hc.
  assert (Ht : outcome_of (transcribe_audio w m f) = Ret transcription_failed)
    by now rewrite Hc.
  pose proof (main_through_save w a dir m audio _ H1 H2 H3 H4 H5) as Hb.
  assert (Ha : main_after_save w m (Some f)
               = (trace (transcribe_audio w m f)
                  ++ [Print MsgRule; Print MsgResultHeader; Print MsgRule;
                      Print (MsgTranscript transcription_failed); Print MsgRule],
                  Ret tt)).
  { unfold main_after_save.
    rewrite (save_audio_file_truthy _ _ _ _ _ H5). cbn [negb].
    rewrite (bind_Ret _ _ [] tt eq_refl).
    rewrite (bind_Ret _ _ _ _ (run_eq _ _ Ht)). reflexivity. }
  rewrite Ha in Hb. cbn [trace outcome_of fst snd] in Hb.
  unfold main. rewrite Hb. cbn [try_except trace outcome_of fst snd exit_status].
  split; [ reflexivity | ]. split; [ reflexivity | ]. split.
  - rewrite !in_app_iff. do 5 right. cbn. tauto.
  - rewrite !in_app_iff. do 4 right. left.
    now apply save_audio_returns_written.
Qed.

Lemma failed_transcription_still_exits_0_witness :
  model_transcribe broken_engine_world cpu_model recording_path decoding
  = Raise (Error (lit "Invalid data found")) /\
  exit_status (outcome_of (main broken_engine_world)) = 0.
Proof.
  split; [ reflexivity | ].
  exact (proj1 (proj2 (failed_transcription_still_exits_0 broken_engine_world
                         quiet_args (lit "recordings") cpu_model silence
                         recording_path _
                         eq_refl eq_refl eq_refl eq_refl eq_refl eq_refl eq_refl))).
Defined.

(* ----------------------------------------------------------------- *)
(** *** Loading the model *)

Lemma select_device_quiet (w : world) :
  filter (fun e => is_download e || is_load e) (trace (select_device w)) = [].
Proof.
  unfold select_device, is_cuda_available.
  unfold try_except, extern, bind, print, ret.
  destruct (import_torch w) as [ [] | [ | | | ] ];
    [ destruct (cuda_is_available w) as [ [ | ] | [ | | | ] ] | .. ];
    reflexivity.
Qed.

(** X8. Once the device is selected, [load_whisper_model] contacts the
    model store only when [download_latest] is set, once, for the
    requested size and before it constructs the model; without the flag
    its only such call is the constructor, and after a failed download
    there is no constructor call. *)
Theorem download_only_on_request (w : world) (sz : model_size) (dl : bool)
    (d : device) (c : compute_type) :
  outcome_of (select_device w) = Ret (d, c) ->
  let calls := filter (fun e => is_download e || is_load e)
                      (trace (load_whisper_model w sz dl)) in
  if dl
  then match download_model w sz with
       | Ret _ =>
           exists o, calls = [Call (DownloadModel sz) Returned;
                              Call (WhisperModel sz d c) o]
       | Raise e => calls = [Call (DownloadModel sz) (Raised e)]
       end
  else exists o, calls = [Call (WhisperModel sz d c) o].
Proof.
  intros Hsel. pose proof (select_device_quiet w) as Hq.
  unfold load_whisper_model.
  destruct (select_device w) as [ts r]. cbn in Hsel, Hq. subst r.
  unfold try_except, except_Exception, extern, bind, print, print_exc, sys_exit,
    raise, ret.
  destruct dl; [ destruct (download_model w sz) as [ [] | [ | | | ] ] | ];
    try destruct (whisper_model w sz d c) as [ [] | [ | | | ] ];
    cbn [app trace outcome_of fst snd is_Exception];
    rewrite ?filter_app, ?Hq; cbn; eauto.
Qed.

Lemma download_only_on_request_witness :
  outcome_of (select_device quiet_world) = Ret (cpu, int8) /\
  exists o,
    filter (fun e => is_download e || is_load e)
           (trace (load_whisper_model quiet_world base false))
    = [Call (WhisperModel base cpu int8) o].
Proof.
  split; [ reflexivity | ].
  exact (download_only_on_request quiet_world base false cpu int8 eq_refl).
Defined.

Lemma load_after_failed_download (w : world) (sz : model_size) (e : exc)
    (sel : device * compute_type) :
  outcome_of (select_device w) = Ret sel ->
  download_model w sz = Raise e ->
  is_Exception e = true ->
  load_whisper_model w sz true
  = (trace (select_device w)
     ++ [Print (MsgCheckingLatest sz); Call (DownloadModel sz) (Raised e);
         Print (MsgErrLoading e); Traceback],
     Raise (SystemExit 1)).
Proof.
  intros Hsel Hd He. unfold load_whisper_model.
  destruct (select_device w) as [ts r]. cbn in Hsel. subst r. destruct sel as [d c].
  unfold try_except, except_Exception, extern, bind, print, print_exc, sys_exit,
    raise, ret.
  rewrite Hd. cbn. rewrite He. reflexivity.
Qed.

(** X9. With [--download-latest], an [Exception] from [download_model]
    ends the run with status 1 before any model is constructed and
    before the audio device is touched. *)
Theorem failed_download_stops_the_run (w : world) (a : args) (dir : str)
    (sel : device * compute_type) (e : exc) :
  outcome_of (parse_arguments w) = Ret a ->
  outcome_of (create_output_directory w (lit "recordings")) = Ret dir ->
  download_latest a = true ->
  outcome_of (select_device w) = Ret sel ->
  download_model w (model a) = Raise e ->
  is_Exception e = true ->
  outcome_of (main w) = Raise (SystemExit 1) /\
  existsb is_load (trace (main w)) = false /\
  existsb is_device_call (trace (main w)) = false.
Proof.
  intros H1 H2 Hdl Hsel Hd He.
  pose proof (load_after_failed_download w (model a) e sel Hsel Hd He) as Hl.
  assert (Hmain : main w =
            (trace (parse_arguments w)
             ++ trace (create_output_directory w (lit "recordings"))
             ++ trace (load_whisper_model w (model a) true),
             Raise (SystemExit 1))).
  { apply main_passes_exit. unfold main_body.
    rewrite (bind_Ret _ _ _ _ (run_eq _ _ H1)).
    rewrite (bind_Ret _ _ _ _ (run_eq _ _ H2)).
    rewrite Hdl. rewrite (bind_Raise _ _ _ _ Hl).
    rewrite Hl. reflexivity. }
  rewrite Hmain. cbn [trace outcome_of fst snd]. split; [ reflexivity | ].
  rewrite !existsb_app.
  rewrite (staged_absent [] _ is_load (parse_arguments_staged w))
    by (apply load_call_marked; cbn; tauto).
  rewrite (staged_absent [] _ is_load (create_output_directory_staged w _))
    by (apply load_call_marked; cbn; tauto).
  rewrite (staged_absent [] _ is_device_call (parse_arguments_staged w))
    by (apply device_call_marked; cbn; tauto).
  rewrite (staged_absent [] _ is_device_call (create_output_directory_staged w _))
    by (apply device_call_marked; cbn; tauto).
  rewrite (staged_absent _ _ is_device_call (load_whisper_model_staged w _ _))
    by (apply device_call_marked; cbn; intuition discriminate).
  split; [ | reflexivity ].
  rewrite Hl. cbn [trace fst]. rewrite existsb_app.
  pose proof (select_device_quiet w) as Hq.
  assert (Hs : existsb is_load (trace (select_device w)) = false).
  { destruct (existsb is_load (trace (select_device w))) eqn:E; [ | reflexivity ].
    apply existsb_exists in E as [x [Hx Hp]].
    assert (Hin : In x (filter (fun e => is_download e || is_load e)
                               (trace (select_device w)))).
    { apply filter_In. split; [ exact Hx | ]. rewrite Hp. apply orb_true_r. }
    rewrite Hq in Hin. contradiction. }
  rewrite Hs. reflexivity.
Qed.

Lemma failed_download_stops_the_run_witness :
  download_model store_down_world small = Raise (Error (lit "Connection refused")) /\
  outcome_of (main store_down_world) = Raise (SystemExit 1) /\
  existsb is_device_call (trace (main store_down_world)) = false.
Proof.
  split; [ reflexivity | ].
  destruct (failed_download_stops_the_run store_down_world
              {| duration := 1; model := small; sample_rate := 4;
                 download_latest := true |}
              (lit "recordings") (cpu, int8) _
              eq_refl eq_refl eq_refl eq_refl eq_refl eq_refl) as [H1 [_ H3]].
  split; [ exact H1 | exact H3 ].
Defined.

(* ----------------------------------------------------------------- *)
(** *** Recording: failures and the countdown *)

Lemma countdown_ends_at_raise (w : world) (n : nat) (c : call) (e : exc) :
  In (Call c (Raised e)) (trace (countdown w n)) ->
  outcome_of (countdown w n) = Raise e.
Proof.
  induction n as [ | k IH ]; [ intros [] | ].
  cbn [countdown]. unfold bind at 1. cbn [print]. unfold bind at 1.
  destruct (time_sleep w (Z.of_nat (S k))) as [ [] | x ]; cbn [extern].
  - destruct (countdown w k) as [tk rk]. cbn in *.
    intros [ H | [ H | H ] ]; try discriminate H. exact (IH H).
  - cbn. intros [ H | [ H | [] ] ]; try discriminate H. now injection H as _ ->.
Qed.

(** X12. Any library call of [record_audio] that raises an [Exception]
    ([sd.rec], a sleep of the countdown, [sd.wait]) makes it raise
    [SystemExit(1)]; in [main] the run then ends with status 1 and
    nothing is written or transcribed. *)
Theorem device_error_is_fatal (w : world) (d sr : Z) (c : call) (e : exc) :
  In (Call c (Raised e)) (trace (record_audio w d sr)) ->
  is_Exception e = true ->
  outcome_of (record_audio w d sr) = Raise (SystemExit 1) /\
  (forall a dir m,
      outcome_of (parse_arguments w) = Ret a ->
      outcome_of (create_output_directory w (lit "recordings")) = Ret dir ->
      outcome_of (load_whisper_model w (model a) (download_latest a)) = Ret m ->
      duration a = d -> sample_rate a = sr ->
      outcome_of (main w) = Raise (SystemExit 1) /\
      existsb is_write (trace (main w)) = false /\
      existsb is_transcribe (trace (main w)) = false).
Proof.
  intros Hin He.
  assert (Hout : outcome_of (record_audio w d sr) = Raise (SystemExit 1)).
  { revert Hin. destruct (Z.leb_spec d 0) as [Hd | Hd].
    - rewrite record_audio_nonpositive by assumption. reflexivity.
    - unfold record_audio.
      destruct (Z.leb_spec d 0) as [ | _ ]; [ lia | ].
      pose proof (countdown_ends_at_raise w (Z.to_nat d)) as Hcd.
      destruct (countdown w (Z.to_nat d)) as [tc rc]. cbn [trace outcome_of fst snd] in Hcd.
      unfold try_except, except_Exception, extern, bind, print, print_exc, sys_exit,
        raise, ret.
      destruct (sd_rec w (d * sr) sr) as [ a0 | [ | | | ] ];
        [ destruct rc as [ [] | [ | | | ] ];
          [ destruct (sd_wait w) as [ [] | [ | | | ] ] | .. ] | .. ];
        cbn [app trace outcome_of fst snd is_Exception]; try reflexivity;
        intros Hin; exfalso; cbn [In] in Hin; rewrite ?in_app_iff in Hin;
        cbn [In] in Hin;
        repeat match goal with
               | H : _ \/ _ |- _ => destruct H as [ H | H ]
               | H : In _ tc |- _ => apply Hcd in H; try discriminate H;
                                     injection H as <-; discriminate He
               | H : Call _ _ = Call _ _ |- _ =>
                   try discriminate H; inversion H; subst; discriminate He
               | H : Print _ = Call _ _ |- _ => discriminate H
               | H : Traceback = Call _ _ |- _ => discriminate H
               | H : False |- _ => contradiction
               end. }
  split; [ exact Hout | ].
  intros a dir m H1 H2 H3 <- <-.
  assert (Hmain : main w =
            (trace (parse_arguments w)
             ++ trace (create_output_directory w (lit "recordings"))
             ++ trace (load_whisper_model w (model a) (download_latest a))
             ++ trace (record_audio w (duration a) (sample_rate a)),
             Raise (SystemExit 1))).
  { apply main_passes_exit. unfold main_body.
    rewrite (bind_Ret _ _ _ _ (run_eq _ _ H1)).
    rewrite (bind_Ret _ _ _ _ (run_eq _ _ H2)).
    rewrite (bind_Ret _ _ _ _ (run_eq _ _ H3)).
    destruct (record_audio w (duration a) (sample_rate a)) as [tr rr].
    cbn in Hout. subst rr. reflexivity. }
  rewrite Hmain. cbn [trace outcome_of fst snd]. split; [ reflexivity | ].
  rewrite !existsb_app.
  rewrite (staged_absent [] _ is_write (parse_arguments_staged w))
    by (apply write_call_marked; cbn; tauto).
  rewrite (staged_absent [] _ is_write (create_output_directory_staged w _))
    by (apply write_call_marked; cbn; tauto).
  rewrite (staged_absent _ _ is_write (load_whisper_model_staged w _ _))
    by (apply write_call_marked; cbn; intuition discriminate).
  rewrite (staged_absent _ _ is_write (record_audio_staged w _ _))
    by (apply write_call_marked; cbn; intuition discriminate).
  rewrite (staged_absent [] _ is_transcribe (parse_arguments_staged w))
    by (apply transcribe_call_marked; cbn; tauto).
  rewrite (staged_absent [] _ is_transcribe (create_output_directory_staged w _))
    by (apply transcribe_call_marked; cbn; tauto).
  rewrite (staged_absent _ _ is_transcribe (load_whisper_model_staged w _ _))
    by (apply transcribe_call_marked; cbn; intuition discriminate).
  rewrite (staged_absent _ _ is_transcribe (record_audio_staged w _ _))
    by (apply transcribe_call_marked; cbn; intuition discriminate).
  split; reflexivity.
Qed.

Lemma device_error_is_fatal_witness :
  In (Call (SdRec 4 4 1) (Raised (Error (lit "Error querying device -1"))))
     (trace (record_audio no_microphone_world 1 4)) /\
  outcome_of (record_audio no_microphone_world 1 4) = Raise (SystemExit 1) /\
  outcome_of (main no_microphone_world) = Raise (SystemExit 1).
Proof.
  assert (Hin : In (Call (SdRec 4 4 1) (Raised (Error (lit "Error querying device -1"))))
                   (trace (record_audio no_microphone_world 1 4))).
  { vm_compute. repeat first [ left; reflexivity | right ]. }
  split; [ exact Hin | ].
  destruct (device_error_is_fatal no_microphone_world 1 4 _ _ Hin eq_refl)
    as [H1 H2].
  split; [ exact H1 | ].
  exact (proj1 (H2 quiet_args (lit "recordings") cpu_model
                   eq_refl eq_refl eq_refl eq_refl eq_refl)).
Defined.

Lemma countdown_run (w : world) (n : nat) :
  outcome_of (countdown w n) = Ret tt ->
  trace (countdown w n)
  = flat_map (fun k => [Print (MsgRemaining (Z.of_nat k));
                        Call (TimeSleep 1) Returned])
             (rev (seq 1 n)).
Proof.
  induction n as [ | k IH ]; [ reflexivity | ].
  rewrite seq_S, rev_app_distr. cbn [rev app flat_map Nat.add].
  cbn [countdown]. unfold bind at 1. cbn [print]. unfold bind at 1.
  destruct (time_sleep w (Z.of_nat (S k))) as [ [] | x ]; cbn [extern];
    [ | discriminate ].
  destruct (countdown w k) as [tk rk]. cbn in *. intros E.
  now rewrite (IH E).
Qed.

Lemma filter_ticks (t : list event) :
  forallb is_tick t = true -> filter is_tick t = t.
Proof.
  induction t as [ | e t IH ]; [ reflexivity | ].
  cbn. intros H. apply andb_prop in H as [He Ht]. rewrite He. f_equal. auto.
Qed.

(** X13. A recording that returns has counted down [d], [d - 1], ..., 1,
    each line followed by one sleep of one second: [d] lines and [d]
    sleeps, no more. *)
Theorem countdown_lasts_the_duration (w : world) (d sr : Z) (audio : list float32) :
  outcome_of (record_audio w d sr) = Ret audio ->
  filter is_tick (trace (record_audio w d sr))
  = flat_map (fun k => [Print (MsgRemaining (Z.of_nat k));
                        Call (TimeSleep 1) Returned])
             (rev (seq 1 (Z.to_nat d))) /\
  Z.of_nat (List.length (filter is_tick (trace (record_audio w d sr)))) = 2 * d.
Proof.
  intros Hret.
  assert (Hd : 0 < d) by now destruct (record_audio_returns _ _ _ _ Hret).
  assert (Hf : filter is_tick (trace (record_audio w d sr))
               = flat_map (fun k => [Print (MsgRemaining (Z.of_nat k));
                                     Call (TimeSleep 1) Returned])
                          (rev (seq 1 (Z.to_nat d)))).
  { revert Hret. unfold record_audio.
    destruct (Z.leb_spec d 0) as [ | _ ]; [ lia | ].
    pose proof (countdown_run w (Z.to_nat d)) as Hrun.
    pose proof (countdown_ticks w (Z.to_nat d)) as Htick.
    destruct (countdown w (Z.to_nat d)) as [tc rc]. cbn [trace outcome_of fst snd] in *.
    unfold try_except, except_Exception, extern, bind, print, print_exc, sys_exit,
      raise, ret.
    destruct (sd_rec w (d * sr) sr) as [ a0 | [ | | | ] ]; cbn; try discriminate.
    destruct rc as [ [] | [ | | | ] ]; cbn;
      [ destruct (sd_wait w) as [ [] | [ | | | ] ]; cbn | .. ]; try discriminate.
    intros _. rewrite filter_app, (filter_ticks _ Htick). cbn.
    rewrite app_nil_r. now apply Hrun. }
  split; [ exact Hf | ].
  rewrite Hf. clear - Hd.
  assert (Hlen : forall l : list nat,
             List.length (flat_map (fun k => [Print (MsgRemaining (Z.of_nat k));
                                              Call (TimeSleep 1) Returned]) l)
             = (2 * List.length l)%nat).
  { induction l as [ | x l IH ]; [ reflexivity | cbn in *; lia ]. }
  rewrite Hlen, length_rev, length_seq. lia.
Qed.

Lemma countdown_lasts_the_duration_witness :
  outcome_of (record_audio quiet_world 1 4) = Ret silence /\
  filter is_tick (trace (record_audio quiet_world 1 4))
  = [Print (MsgRemaining 1); Call (TimeSleep 1) Returned].
Proof.
  split; [ reflexivity | ].
  exact (proj1 (countdown_lasts_the_duration quiet_world 1 4 silence eq_refl)).
Defined.

Lemma main_exit_status_witness :
  outcome_of (main bad_arguments_world) = Raise (SystemExit 2) /\
  (2 = 0 \/ 2 = 1 \/
   (exists call,
       In (Call call (Raised (SystemExit 2))) (trace (main bad_arguments_world))) \/
   generator_raises bad_arguments_world (SystemExit 2)).
Proof.
  split; [ reflexivity | ].
  exact (main_exit_status bad_arguments_world 2 eq_refl).
Defined.

(* ----------------------------------------------------------------- *)
(** *** Saving *)

(** X7. [save_audio] calls the library once, [write_wav], on as many
    samples as it was given.  It returns the file name exactly when
    [write_wav] returns, [None] exactly when [write_wav] raises an
    [Exception], and raises exactly what [write_wav] raises outside
    [Exception]. *)
Theorem save_audio_outcomes (w : world) (audio : list float32) (sr : Z) (dir : str) :
  let filename :=
    path_join dir (lit "recording_" ++ datetime_now w ++ lit ".wav") in
  let written := write_wav w filename sr (audio_int16 audio) in
  (forall f, outcome_of (save_audio w audio sr dir) = Ret (Some f) <->
             written = Ret tt /\ f = filename) /\
  (outcome_of (save_audio w audio sr dir) = Ret None <->
   exists e, written = Raise e /\ is_Exception e = true) /\
  (forall e, outcome_of (save_audio w audio sr dir) = Raise e <->
             written = Raise e /\ is_Exception e = false) /\
  (exists o, filter is_call (trace (save_audio w audio sr dir))
             = [Call (WriteWav filename sr (audio_int16 audio)) o]) /\
  List.length (audio_int16 audio) = List.length audio.
Proof.
  intros filename written.
  pose proof (save_audio_cases w audio sr dir) as H. cbv zeta in H.
  fold filename in H. fold written in H.
  assert (Hlen : List.length (audio_int16 audio) = List.length audio)
    by apply length_map.
  destruct written as [ [] | e ]; [ | destruct (is_Exception e) eqn:He ];
    rewrite H; cbn [trace outcome_of fst snd filter is_call];
    (split; [ intros f | split; [ | split; [ intros e0 | split; [ eauto | exact Hlen ] ] ] ]);
    (split; intros X;
     repeat match goal with
            | K : _ /\ _ |- _ => destruct K
            | K : exists _, _ |- _ => destruct K
            end;
     try congruence; try (split; congruence);
     try (eexists; split; [ reflexivity | assumption ])).
Qed.

Lemma save_audio_outcomes_witness :
  write_wav disk_full_world recording_path 4 (audio_int16 silence)
  = Raise (Error (lit "No space left on device")) /\
  outcome_of (save_audio disk_full_world silence 4 (lit "recordings")) = Ret None.
Proof.
  split; [ reflexivity | ].
  apply (proj2 (proj1 (proj2 (save_audio_outcomes disk_full_world silence 4
                                (lit "recordings"))))).
  eexists. split; reflexivity.
Defined.

(* ----------------------------------------------------------------- *)
(** *** The transcript *)

Lemma lstrip_head (s : str) (c : N) (r : str) :
  lstrip s = c :: r -> isspace c = false.
Proof.
  induction s as [ | x s IH ]; [ discriminate | ].
  cbn [lstrip]. destruct (isspace x) eqn:Ex; [ exact IH | ].
  intros E. now injection E as <- _.
Qed.

Lemma lstrip_suffix (s : str) : exists p, s = p ++ lstrip s.
Proof.
  induction s as [ | x s [p IH] ]; [ now exists [] | ].
  cbn [lstrip]. destruct (isspace x).
  - exists (x :: p). cbn. now rewrite <- IH.
  - now exists [].
Qed.

(** What [strip] returns neither starts nor ends with whitespace. *)
Lemma strip_trimmed (s : str) (c : N) (r : str) :
  strip s = c :: r ->
  isspace c = false /\ isspace (last (c :: r) c) = false.
Proof.
  unfold strip, rstrip. set (y := lstrip s). set (z := lstrip (rev y)).
  intros E. destruct z as [ | a z' ] eqn:Ez; [ discriminate | ].
  split.
  - destruct (lstrip_suffix (rev y)) as [p Hp]. fold z in Hp. rewrite Ez in Hp.
    assert (Hy : y = rev (a :: z') ++ rev p).
    { rewrite <- (rev_involutive y), Hp. apply rev_app_distr. }
    rewrite E in Hy. cbn in Hy. apply (lstrip_head s c (r ++ rev p)).
    exact Hy.
  - rewrite <- E. cbn [rev]. rewrite last_last.
    exact (lstrip_head (rev y) a z' Ez).
Qed.

(** X14. A string [transcribe_audio] returns neither starts nor ends
    with whitespace; it is empty when the engine yields no segment, or
    only segments of whitespace. *)
Theorem transcript_is_trimmed (w : world) (m : whisper) (f t : str) :
  outcome_of (transcribe_audio w m f) = Ret t ->
  (forall c r, t = c :: r ->
               isspace c = false /\ isspace (last t c) = false) /\
  (forall segs, model_transcribe w m f decoding = Ret (segs, None) ->
                forallb (fun g => forallb isspace (text g)) segs = true ->
                t = []).
Proof.
  pose proof (transcribe_audio_cases w m f) as H. cbv zeta in H.
  destruct (model_transcribe w m f decoding) as [ [segs [ x | ]] | x ];
    try destruct (is_Exception x); rewrite H; cbn [outcome_of snd];
    intros E; try discriminate E; injection E as <-;
    (split; [ | intros segs' E'; try discriminate E' ]);
    try (intros c r Ht; injection Ht as <- <-; split; reflexivity).
  - intros c r Ht. rewrite Ht. now apply (strip_trimmed _ _ _ Ht).
  - injection E' as <-. intros Hsp. unfold strip.
    rewrite lstrip_all_space; [ reflexivity | ].
    clear - Hsp. unfold collect.
    assert (Hgen : forall acc, forallb isspace acc = true ->
              forallb isspace
                (fold_left (fun acc0 seg => acc0 ++ (text seg ++ lit " ")) segs acc)
              = true).
    { induction segs as [ | g segs IH ]; intros acc Hacc; [ exact Hacc | ].
      cbn in Hsp. apply andb_prop in Hsp as [Hg Hrest]. cbn [fold_left].
      apply IH; [ exact Hrest | ].
      rewrite !forallb_app, Hacc, Hg. reflexivity. }
    now apply Hgen.
Qed.

Lemma transcript_is_trimmed_witness :
  outcome_of (transcribe_audio quiet_world cpu_model recording_path)
  = Ret (lit "hello  world") /\
  isspace 104 = false /\ isspace 100 = false.
Proof.
  split; [ reflexivity | ].
  exact (proj1 (transcript_is_trimmed quiet_world cpu_model recording_path _ eq_refl)
           104%N (lit "ello  world") eq_refl).
Defined.

(* ----------------------------------------------------------------- *)
(** *** More on the samples *)

Lemma binary_round_aux_opp (s : bool) (m e : Z) (l : location) :
  binary_round_aux prec emax (negb s) m e l
  = SFopp (binary_round_aux prec emax s m e l).
Proof.
  unfold binary_round_aux.
  destruct (shr_fexp prec emax m e l) as [mrs1 e1].
  destruct (shr_fexp prec emax _ e1 loc_Exact) as [mrs2 e2].
  destruct (shr_m mrs2); try reflexivity.
  destruct (e2 <=? emax - prec); reflexivity.
Qed.

Lemma mul_opp (a : float32) : mul (SFopp a) c32767 = SFopp (mul a c32767).
Proof.
  unfold mul, c32767. destruct a as [ s | s | | s m e ]; cbn [SFopp SFmul];
    try reflexivity.
  - now rewrite !xorb_false_r.
  - now rewrite !xorb_false_r.
  - rewrite !xorb_false_r. apply binary_round_aux_opp.
Qed.

Lemma Qtrunc_opp (x : float32) :
  Qtrunc (to_Q (SFopp x)) = - Qtrunc (to_Q x).
Proof.
  destruct x as [ s | s | | s m e ]; try reflexivity.
  cbn [SFopp]. rewrite <- !int_part_Qtrunc. unfold int_part.
  destruct s; cbn [negb cond_Zopp]; lia.
Qed.

(** X16. For an amplitude of [[-1, 1]] the sample is within
    [[-32767, 32767]] (-32768 is never stored), and negating the amplitude
    negates the sample. *)
Theorem unit_range_samples_are_symmetric (a : float32) :
  amplitude_ok a = true ->
  -32767 <= quantize a <= 32767 /\
  quantize (SFopp a) = - quantize a.
Proof.
  intros H. pose proof (quantize_unit_range a H) as Hq.
  apply andb_prop in H as [Hv Hu].
  pose proof (mul_c32767_unit_range a Hv Hu) as Hb.
  split; [ now rewrite Hq | ].
  rewrite Hq. unfold quantize. rewrite mul_opp.
  rewrite astype_int16_in_range; rewrite Qtrunc_opp; lia.
Qed.

Lemma unit_range_samples_are_symmetric_witness :
  amplitude_ok three_eighths = true /\
  quantize (SFopp three_eighths) = -12287.
Proof.
  split; [ reflexivity | ].
  exact (proj2 (unit_range_samples_are_symmetric three_eighths eq_refl)).
Defined.

(* ----------------------------------------------------------------- *)
(** *** An error of the probe *)

(** X10. An error of [torch.cuda.is_available()] that is not an
    [ImportError] is outside the [try] of [load_whisper_model]: it leaves
    that function unchanged and is reported by the last handler of
    [main], which ends the run with status 1, no model constructed. *)
Theorem probe_error_is_unexpected (w : world) (a : args) (dir msg : str) :
  outcome_of (parse_arguments w) = Ret a ->
  outcome_of (create_output_directory w (lit "recordings")) = Ret dir ->
  import_torch w = Ret tt ->
  cuda_is_available w = Raise (Error msg) ->
  outcome_of (load_whisper_model w (model a) (download_latest a))
  = Raise (Error msg) /\
  main w =
    (trace (parse_arguments w)
     ++ trace (create_output_directory w (lit "recordings"))
     ++ [Call ImportTorch Returned; Call CudaIsAvailable (Raised (Error msg));
         Print (MsgUnexpected (Error msg)); Traceback],
     Raise (SystemExit 1)).
Proof.
  intros H1 H2 Hi Hc.
  assert (Hl : load_whisper_model w (model a) (download_latest a)
               = ([Call ImportTorch Returned;
                   Call CudaIsAvailable (Raised (Error msg))],
                  Raise (Error msg))).
  { unfold load_whisper_model, select_device, is_cuda_available.
    unfold try_except, extern, bind. rewrite Hi, Hc. reflexivity. }
  split; [ now rewrite Hl | ].
  unfold main, main_body.
  rewrite (bind_Ret _ _ _ _ (run_eq _ _ H1)).
  rewrite (bind_Ret _ _ _ _ (run_eq _ _ H2)).
  rewrite (bind_Raise _ _ _ _ Hl). cbn [trace outcome_of fst snd].
  unfold try_except, bind, print, print_exc, sys_exit, raise.
  cbn. now rewrite <- !app_assoc.
Qed.

Lemma probe_error_is_unexpected_witness :
  cuda_is_available broken_driver_world
  = Raise (Error (lit "CUDA driver initialization failed")) /\
  outcome_of (main broken_driver_world) = Raise (SystemExit 1) /\
  existsb is_load (trace (main broken_driver_world)) = false.
Proof.
  split; [ reflexivity | ].
  rewrite (proj2 (probe_error_is_unexpected broken_driver_world quiet_args
                    (lit "recordings") _ eq_refl eq_refl eq_refl eq_refl)).
  split; reflexivity.
Defined.

(** X11. An [ImportError] raised by [torch.cuda.is_available()] itself,
    after a successful [import torch], is handled like a missing torch:
    [is_cuda_available] returns [False] and the model is loaded on
    [("cpu", "int8")]. *)
Theorem probe_import_error_selects_cpu (w : world) (msg : str) :
  import_torch w = Ret tt ->
  cuda_is_available w = Raise (ImportError msg) ->
  is_cuda_available w
  = ([Call ImportTorch Returned; Call CudaIsAvailable (Raised (ImportError msg));
      Print MsgTorchMissing], Ret false) /\
  outcome_of (select_device w) = Ret (cpu, int8) /\
  forall sz dl m,
    outcome_of (load_whisper_model w sz dl) = Ret m ->
    w_device m = cpu /\ w_compute m = int8.
Proof.
  intros Hi Hc.
  assert (Hp : is_cuda_available w
               = ([Call ImportTorch Returned;
                   Call CudaIsAvailable (Raised (ImportError msg));
                   Print MsgTorchMissing], Ret false)).
  { unfold is_cuda_available, try_except, extern, bind. rewrite Hi, Hc. reflexivity. }
  split; [ exact Hp | ].
  assert (Hs : select_device w
               = ([Call ImportTorch Returned;
                   Call CudaIsAvailable (Raised (ImportError msg));
                   Print MsgTorchMissing; Print MsgCudaUnavailable],
                  Ret (cpu, int8))).
  { unfold select_device. rewrite Hp. reflexivity. }
  split; [ now rewrite Hs | ].
  intros sz dl m. unfold load_whisper_model. rewrite Hs.
  unfold try_except, except_Exception, extern, bind, print, print_exc, sys_exit,
    raise, ret.
  destruct dl; [ destruct (download_model w sz) as [ [] | [ | | | ] ] | ]; cbn;
    try discriminate;
    destruct (whisper_model w sz cpu int8) as [ [] | [ | | | ] ]; cbn;
    intros E; try discriminate; injection E as <-; split; reflexivity.
Qed.

Lemma probe_import_error_selects_cpu_witness :
  cuda_is_available partial_torch_world
  = Raise (ImportError (lit "No module named torch._C")) /\
  outcome_of (select_device partial_torch_world) = Ret (cpu, int8).
Proof.
  split; [ reflexivity | ].
  exact (proj1 (proj2 (probe_import_error_selects_cpu partial_torch_world _
                         eq_refl eq_refl))).
Defined.

End AsrMore.
